(** * Social grouping: the bound analyzer and the round-constrained grouping engine

    A shallow embedding of [social_grouping_analyzer.py] and
    [social_grouping_program.py].

    - Python [int] is [Z]; [//] and [%] are [Z.div] and [Z.modulo] (both round
      toward minus infinity, the remainder takes the divisor's sign), with the
      [ZeroDivisionError] of a zero divisor written out.
    - [int / int] is Python's true division: the quotient correctly rounded to
      binary64 (round half to even), [OverflowError] when it exceeds the
      largest finite double; [int(x)] truncates toward zero.
    - A nickname is a [string] of UTF-8 bytes; Python orders [str] by code
      point, which is the byte order of the UTF-8 encodings.
    - [previous_meetings], a [set] of 2-tuples, is a [gset (string * string)].
    - Methods of [SocialGroupingProgram] run in a state monad over the
      object's fields and the state of the [random] module.  [print] calls
      write to standard output only and are left out. *)

From Stdlib Require Import ZArith Lia String.
From stdpp Require Import gmap strings list pretty.

(** ** Exceptions and results *)

Inductive exception : Type :=
| ValueError
| ZeroDivisionError
| OverflowError
| IndexError
| TypeError.

Inductive result (A : Type) : Type :=
| Ok (a : A)
| Raise (e : exception).
Arguments Ok {A} a.
Arguments Raise {A} e.

(** ** Python's [int / int] and [int(float)] *)

Module PyFloat.
Local Open Scope Z_scope.

(** A finite binary64 value: [(-1)^f_neg * f_mant * 2^f_exp], [0 <= f_mant]. *)
Record float64 : Type := { f_neg : bool; f_mant : Z; f_exp : Z }.

(** [num / den] rounded to the nearest integer, ties to even
    ([0 <= num], [0 < den]). *)
Definition round_half_even (num den : Z) : Z :=
  let q := num / den in
  let r := num mod den in
  if 2 * r <? den then q
  else if den <? 2 * r then q + 1
  else if Z.even q then q else q + 1.

(** [floor (log2 (x / y))] for [0 < x], [0 < y]. *)
Definition quot_exponent (x y : Z) : Z :=
  let d := Z.log2 x - Z.log2 y in
  if x * 2 ^ Z.max 0 (- d) <? y * 2 ^ Z.max 0 d then d - 1 else d.

(** [a / b] on two [int]s: the exact quotient rounded to 53 significant bits
    (fewer below [2^-1022], where the exponent stays at [-1074]). *)
Definition int_true_divide (a b : Z) : result float64 :=
  if b =? 0 then Raise ZeroDivisionError
  else
    let neg := xorb (a <? 0) (b <? 0) in
    if a =? 0 then Ok {| f_neg := neg; f_mant := 0; f_exp := 0 |}
    else
      let x := Z.abs a in
      let y := Z.abs b in
      let e := Z.max (quot_exponent x y - 52) (-1074) in
      let m := round_half_even (x * 2 ^ Z.max 0 (- e)) (y * 2 ^ Z.max 0 e) in
      if (971 <? e) || ((e =? 971) && (m =? 2 ^ 53))
      then Raise OverflowError
      else Ok {| f_neg := neg; f_mant := m; f_exp := e |}.

(** [int(x)]: the integer part, toward zero. *)
Definition int_of_float (x : float64) : Z :=
  let v := if 0 <=? f_exp x then f_mant x * 2 ^ f_exp x
           else f_mant x / 2 ^ (- f_exp x) in
  if f_neg x then - v else v.

End PyFloat.

(** ** [social_grouping_analyzer.py] *)

Module Analyzer.
Import PyFloat.
Local Open Scope Z_scope.

Record SocialGroupingAnalyzer : Type := {
  N : Z;
  n : Z;
  num_groups : Z;
  total_pairs : Z;
  pairs_per_group : Z;
  pairs_per_round : Z;
  max_theoretical_rounds : float64;
  max_practical_rounds : Z
}.

(** [_calculate_theoretical_limits], on the fields [__init__] has set. *)
Definition _calculate_theoretical_limits (self_N self_n self_num_groups : Z)
  : result SocialGroupingAnalyzer :=
  let total_pairs := self_N * (self_N - 1) / 2 in
  let pairs_per_group := self_n * (self_n - 1) / 2 in
  let pairs_per_round := self_num_groups * pairs_per_group in
  match int_true_divide total_pairs pairs_per_round with
  | Raise e => Raise e
  | Ok max_theoretical_rounds =>
      Ok {| N := self_N; n := self_n; num_groups := self_num_groups;
            total_pairs := total_pairs;
            pairs_per_group := pairs_per_group;
            pairs_per_round := pairs_per_round;
            max_theoretical_rounds := max_theoretical_rounds;
            max_practical_rounds := int_of_float max_theoretical_rounds |}
  end.

(** [SocialGroupingAnalyzer.__init__]: [self.N % self.n] raises on [n = 0]. *)
Definition __init__ (total_people group_size : Z)
  : result SocialGroupingAnalyzer :=
  if group_size =? 0 then Raise ZeroDivisionError
  else if negb (total_people mod group_size =? 0) then Raise ValueError
  else _calculate_theoretical_limits total_people group_size
         (total_people / group_size).

(** [print_analysis]: the verdict on feasibility, the value of the simple
    formula [(N - 1) / (n - 1)] and the reading of the round count, in the
    order they are evaluated. *)
Inductive difficulty_t : Type :=
| Feasible      (* max_practical_rounds >= 3 *)
| Restricted    (* max_practical_rounds >= 1 *)
| Infeasible.

Inductive interpretation_t : Type :=
| TooFewRounds      (* max_practical_rounds <= 2 *)
| ModerateRounds    (* max_practical_rounds <= 4 *)
| PlentyOfRounds.

Definition print_analysis (self : SocialGroupingAnalyzer)
  : result (difficulty_t * float64 * interpretation_t) :=
  let difficulty :=
    if 3 <=? max_practical_rounds self then Feasible
    else if 1 <=? max_practical_rounds self then Restricted
    else Infeasible in
  match int_true_divide (N self - 1) (n self - 1) with
  | Raise e => Raise e
  | Ok theoretical_formula =>
      let interpretation :=
        if max_practical_rounds self <=? 2 then TooFewRounds
        else if max_practical_rounds self <=? 4 then ModerateRounds
        else PlentyOfRounds in
      Ok (difficulty, theoretical_formula, interpretation)
  end.

(** [compare_scenarios]: the rows of the table it prints. *)
Inductive rating_t : Type :=
| Excellent     (* max_practical_rounds >= 4 *)
| Good          (* max_practical_rounds >= 2 *)
| Limited       (* max_practical_rounds >= 1 *)
| Impossible.

Definition rating (analyzer : SocialGroupingAnalyzer) : rating_t :=
  if 4 <=? max_practical_rounds analyzer then Excellent
  else if 2 <=? max_practical_rounds analyzer then Good
  else if 1 <=? max_practical_rounds analyzer then Limited
  else Impossible.

(** A row: the scenario, then the number of groups, the round count, the
    pair count and the rating, or [None] where the table shows N/A. *)
Record scenario_row : Type := {
  row_total : Z;
  row_group : Z;
  row_values : option (Z * Z * Z * rating_t)
}.

(** The rows printed, and how the loop ended: the [try] catches
    [ValueError] only, any other exception leaves the method. *)
Fixpoint compare_scenarios (scenarios : list (Z * Z))
  : list scenario_row * result unit :=
  match scenarios with
  | [] => ([], Ok tt)
  | (total, group) :: rest =>
      match __init__ total group with
      | Ok analyzer =>
          let row := {| row_total := total; row_group := group;
                        row_values :=
                          Some (num_groups analyzer,
                                max_practical_rounds analyzer,
                                total_pairs analyzer, rating analyzer) |} in
          let (rows, outcome) := compare_scenarios rest in
          (row :: rows, outcome)
      | Raise ValueError =>
          let row := {| row_total := total; row_group := group;
                        row_values := None |} in
          let (rows, outcome) := compare_scenarios rest in
          (row :: rows, outcome)
      | Raise e => ([], Raise e)
      end
  end.

End Analyzer.

(** ** [social_grouping_program.py] *)

Module Program.
Local Open Scope Z_scope.

(** [Person]: [id] is the nickname again, [__eq__] and [__hash__] read the
    nickname only. *)
Record Person : Type := { nickname : string; gender : string }.

(** The label [calculate_gender_balance_score] compares with (U+B0A8). *)
Definition male_label : string := "남".

(** The tuple [add_meetings] stores for two nicknames. *)
Definition ordered_pair (person1 person2 : string) : string * string :=
  if String.ltb person1 person2 then (person1, person2)
  else (person2, person1).

(** [tuple(sorted([a, b]))]: the sort is stable and swaps only when [b < a]. *)
Definition sorted_pair (a b : string) : string * string :=
  if String.ltb b a then (b, a) else (a, b).

(** [range(a, b)] over list indices and [range(n)] over [int]. *)
Definition range (a b : nat) : list nat := seq a (b - a).
Definition zrange (n : Z) : list Z := map Z.of_nat (seq 0 (Z.to_nat n)).

(** [l[start:stop]]: a negative bound counts from the end, both are clamped
    to the list. *)
Definition clamp_index (len i : Z) : Z :=
  if i <? 0 then Z.max 0 (i + len) else Z.min i len.

Definition py_slice {A : Type} (l : list A) (start stop : Z) : list A :=
  let len := Z.of_nat (length l) in
  let a := clamp_index len start in
  let b := clamp_index len stop in
  take (Z.to_nat (b - a)) (drop (Z.to_nat a) l).

(** [best_score]: [float('inf')] until the first candidate, an [int] after. *)
Inductive best_score_t : Type :=
| inf
| score (z : Z).

Definition score_lt (total_score : Z) (best_score : best_score_t) : bool :=
  match best_score with
  | inf => true
  | score b => total_score <? b
  end.

(** What [save_history] hands to [json.dump]. *)
Record round_data : Type := {
  rd_round : Z;
  rd_groups : list (list string)
}.
Record history_data : Type := {
  hd_total_people : Z;
  hd_group_size : Z;
  hd_rounds : list round_data
}.

Section Session.

(** The state of the [random] module, and [random.shuffle] on a copy. *)
Context {rng : Type}.
Variable shuffle : rng -> list Person -> list Person * rng.

Record SocialGroupingProgram : Type := {
  people : list Person;
  group_size : Z;
  num_groups : Z;
  previous_meetings : gset (string * string);
  round_history : list (list (list Person));
  current_round : Z;
  random_state : rng
}.

Definition set_previous_meetings (m : gset (string * string))
  (self : SocialGroupingProgram) : SocialGroupingProgram :=
  {| people := people self; group_size := group_size self;
     num_groups := num_groups self; previous_meetings := m;
     round_history := round_history self;
     current_round := current_round self;
     random_state := random_state self |}.

Definition set_round_history (h : list (list (list Person)))
  (self : SocialGroupingProgram) : SocialGroupingProgram :=
  {| people := people self; group_size := group_size self;
     num_groups := num_groups self;
     previous_meetings := previous_meetings self;
     round_history := h;
     current_round := current_round self;
     random_state := random_state self |}.

Definition set_current_round (c : Z)
  (self : SocialGroupingProgram) : SocialGroupingProgram :=
  {| people := people self; group_size := group_size self;
     num_groups := num_groups self;
     previous_meetings := previous_meetings self;
     round_history := round_history self;
     current_round := c;
     random_state := random_state self |}.

Definition set_random_state (r : rng)
  (self : SocialGroupingProgram) : SocialGroupingProgram :=
  {| people := people self; group_size := group_size self;
     num_groups := num_groups self;
     previous_meetings := previous_meetings self;
     round_history := round_history self;
     current_round := current_round self;
     random_state := r |}.

(** *** The monad of methods: a state transformer that may raise *)

Definition M (A : Type) : Type :=
  SocialGroupingProgram -> result A * SocialGroupingProgram.

Definition ret {A : Type} (a : A) : M A := fun self => (Ok a, self).

Definition bind {A B : Type} (m : M A) (k : A -> M B) : M B :=
  fun self =>
    match m self with
    | (Ok a, self') => k a self'
    | (Raise e, self') => (Raise e, self')
    end.

Definition raise {A : Type} (e : exception) : M A :=
  fun self => (Raise e, self).

Definition gets {A : Type} (f : SocialGroupingProgram -> A) : M A :=
  fun self => (Ok (f self), self).

Definition modify (f : SocialGroupingProgram -> SocialGroupingProgram)
  : M unit :=
  fun self => (Ok tt, f self).

Definition lift {A : Type} (r : result A) : M A := fun self => (r, self).

#[local] Notation "'let*' x ':=' m 'in' k" := (bind m (fun x => k))
  (at level 10, x pattern, m at level 100, k at level 200, only parsing).

(** A [for] loop whose body updates the local [acc]. *)
Fixpoint fold_for {A B : Type} (l : list A) (acc : B) (body : B -> A -> M B)
  : M B :=
  match l with
  | [] => ret acc
  | x :: l' => let* acc' := body acc x in fold_for l' acc' body
  end.

Definition for_ {A : Type} (l : list A) (body : A -> M unit) : M unit :=
  fold_for l tt (fun _ x => body x).

(** [l[i]] for [0 <= i]. *)
Definition item {A : Type} (l : list A) (i : nat) : M A :=
  match l !! i with
  | Some x => ret x
  | None => raise IndexError
  end.

(** [random.shuffle(shuffled_people)] on [self.people.copy()]. *)
Definition shuffled_copy : M (list Person) :=
  fun self =>
    let (shuffled_people, r) := shuffle (random_state self) (people self) in
    (Ok shuffled_people, set_random_state r self).

(** *** The methods *)

(** [SocialGroupingProgram.__init__]; [r] is the state [random] is in. *)
Definition __init__ (people : list Person) (group_size : Z) (r : rng)
  : result SocialGroupingProgram :=
  if group_size =? 0 then Raise ZeroDivisionError
  else Ok {| people := people; group_size := group_size;
             num_groups := Z.of_nat (length people) / group_size;
             previous_meetings := ∅;
             round_history := [];
             current_round := 0;
             random_state := r |}.

Definition add_meetings (groups : list (list Person)) : M unit :=
  for_ groups (fun group =>
    for_ (range 0 (length group)) (fun i =>
      for_ (range (i + 1) (length group)) (fun j =>
        let* gi := item group i in
        let* gj := item group j in
        let person1 := nickname gi in
        let person2 := nickname gj in
        if String.ltb person1 person2
        then modify (fun self =>
               set_previous_meetings
                 ({[ (person1, person2) ]} ∪ previous_meetings self) self)
        else modify (fun self =>
               set_previous_meetings
                 ({[ (person2, person1) ]} ∪ previous_meetings self) self)))).

Definition get_meeting_count (person1 person2 : Person) : M Z :=
  let key := sorted_pair (nickname person1) (nickname person2) in
  let* meetings := gets previous_meetings in
  ret (if bool_decide (key ∈ meetings) then 1 else 0).

Definition calculate_group_score (group : list Person) : M Z :=
  fold_for (range 0 (length group)) 0 (fun score i =>
    fold_for (range (i + 1) (length group)) score (fun score j =>
      let* gi := item group i in
      let* gj := item group j in
      let* c := get_meeting_count gi gj in
      ret (score + c))).

(** [sum(1 for p in group if p.gender == "남")]. *)
Definition male_count (group : list Person) : Z :=
  Z.of_nat (length (filter (fun p => gender p = male_label) group)).

Definition calculate_gender_balance_score (group : list Person) : M Z :=
  let male_count := male_count group in
  let female_count := Z.of_nat (length group) - male_count in
  let* k := gets group_size in
  let ideal_male := k / 2 in
  let ideal_female := k - ideal_male in
  ret (Z.abs (male_count - ideal_male) + Z.abs (female_count - ideal_female)).

(** Lines 147-151 of [generate_groups_genetic]: the blocks of the shuffled
    list. *)
Definition slice_groups (shuffled_people : list Person)
  : M (list (list Person)) :=
  let* ng := gets num_groups in
  fold_for (zrange ng) [] (fun groups i =>
    let* k := gets group_size in
    let start_idx := i * k in
    let end_idx := start_idx + k in
    ret (groups ++ [py_slice shuffled_people start_idx end_idx])).

(** Lines 153-157: the candidate's [total_score]. *)
Definition total_score (groups : list (list Person)) : M Z :=
  fold_for groups 0 (fun total_score group =>
    let* a := calculate_group_score group in
    let total_score := total_score + a in
    let* b := calculate_gender_balance_score group in
    ret (total_score + b * 2)).

(** Lines 143-157: one pass of the loop body up to the comparison. *)
Definition sample_candidate : M (list (list Person) * Z) :=
  let* shuffled_people := shuffled_copy in
  let* groups := slice_groups shuffled_people in
  let* total := total_score groups in
  ret (groups, total).

(** The loop of [generate_groups_genetic] with [iterations] passes left;
    [break] leaves it at the first [total_score == 0]. *)
Fixpoint search_loop (iterations : nat)
  (best_groups : option (list (list Person))) (best_score : best_score_t)
  : M (option (list (list Person)) * best_score_t) :=
  match iterations with
  | O => ret (best_groups, best_score)
  | S rest =>
      let* (groups, total) := sample_candidate in
      if score_lt total best_score then
        if total =? 0 then ret (Some groups, score total)
        else search_loop rest (Some groups) (score total)
      else search_loop rest best_groups best_score
  end.

Definition generate_groups_genetic (max_iterations : Z)
  : M (option (list (list Person))) :=
  let* (best_groups, _) :=
    search_loop (Z.to_nat max_iterations) None inf in
  ret best_groups.

(** [print_groups]: what it evaluates for its output. [None] for [groups]
    fails in [enumerate]. *)
Definition print_groups (groups : option (list (list Person))) : M unit :=
  match groups with
  | None => raise TypeError
  | Some groups =>
      let* _ := fold_for groups 0 (fun total_previous_meetings group =>
        let* group_previous_meetings := calculate_group_score group in
        ret (total_previous_meetings + group_previous_meetings)) in
      ret tt
  end.

Definition create_new_round : M (option (list (list Person))) :=
  let* _ := modify (fun self =>
              set_current_round (current_round self + 1) self) in
  let* groups := generate_groups_genetic 1000 in
  let* _ := print_groups groups in
  match groups with
  | None => raise TypeError
  | Some committed =>
      let* _ := add_meetings committed in
      let* _ := modify (fun self =>
                  set_round_history (round_history self ++ [committed])
                    self) in
      ret groups
  end.

(** [show_statistics]: the numbers it formats; the progress ratio is a true
    division, the round estimate a floor division. *)
Definition show_statistics : M unit :=
  let* recorded := gets (fun self => Z.of_nat (size (previous_meetings self))) in
  let* total := gets (fun self => Z.of_nat (length (people self))) in
  let possible := total * (total - 1) / 2 in
  let* _ := lift (PyFloat.int_true_divide recorded possible) in
  let* round := gets current_round in
  if 0 <? round then
    let* ng := gets num_groups in
    let* k := gets group_size in
    let per_round := ng * (k * (k - 1) / 2) in
    if per_round =? 0 then raise ZeroDivisionError
    else
      let theoretical_max := possible / per_round in
      let _ := Z.max 0 (theoretical_max - round) in
      ret tt
  else ret tt.

(** [save_history]: the value written by [json.dump]. *)
Definition save_history : M history_data :=
  let* total := gets (fun self => Z.of_nat (length (people self))) in
  let* k := gets group_size in
  let* history := gets round_history in
  ret {| hd_total_people := total;
         hd_group_size := k;
         hd_rounds :=
           imap (fun i groups =>
                   {| rd_round := Z.of_nat i + 1;
                      rd_groups := map (map nickname) groups |})
                history |}.

(** The two totals [print_groups] prints last (lines 195-197): the pairs
    that had met before, and the number it reports as new meetings. *)
Definition print_groups_totals (groups : list (list Person)) : M (Z * Z) :=
  let* total_previous_meetings :=
    fold_for groups 0 (fun total_previous_meetings group =>
      let* group_previous_meetings := calculate_group_score group in
      ret (total_previous_meetings + group_previous_meetings)) in
  let* k := gets group_size in
  ret (total_previous_meetings,
       Z.of_nat (length groups) * (k * (k - 1) / 2) - total_previous_meetings).

(** *** What the loops compute, as functions of the ledger *)

(** The pairs [(group[i], group[j])], [i < j], in the order the two nested
    loops visit them. *)
Fixpoint pairs_of {A : Type} (group : list A) : list (A * A) :=
  match group with
  | [] => []
  | p :: rest => map (pair p) rest ++ pairs_of rest
  end.

Definition zsum (l : list Z) : Z := foldr Z.add 0 l.

Definition met (meetings : gset (string * string)) (pq : Person * Person)
  : Z :=
  if bool_decide (sorted_pair (nickname pq.1) (nickname pq.2) ∈ meetings)
  then 1 else 0.

Definition repeat_count (meetings : gset (string * string))
  (group : list Person) : Z :=
  zsum (map (met meetings) (pairs_of group)).

(** Everybody whose gender is not [male_label]. *)
Definition other_count (group : list Person) : Z :=
  Z.of_nat (length (filter (fun p => gender p ≠ male_label) group)).

Definition imbalance (k : Z) (group : list Person) : Z :=
  Z.abs (male_count group - k / 2)
  + Z.abs (Z.of_nat (length group) - male_count group - (k - k / 2)).

Definition cost (meetings : gset (string * string)) (k : Z)
  (groups : list (list Person)) : Z :=
  zsum (map (fun g => repeat_count meetings g + imbalance k g * 2) groups).

Definition cost_in (self : SocialGroupingProgram)
  (groups : list (list Person)) : Z :=
  cost (previous_meetings self) (group_size self) groups.

Definition group_keys (group : list Person) : list (string * string) :=
  map (fun pq => ordered_pair (nickname pq.1) (nickname pq.2))
      (pairs_of group).

Definition pair_keys (groups : list (list Person)) : gset (string * string) :=
  list_to_set (concat (map group_keys groups)).

Definition blocks (shuffled_people : list Person) (k ng : Z)
  : list (list Person) :=
  map (fun i => py_slice shuffled_people (i * k) (i * k + k)) (zrange ng).

(** The candidates of [count] passes from the random state [r], and the
    random state after them. *)
Fixpoint draws (population : list Person) (k ng : Z) (count : nat) (r : rng)
  : list (list (list Person)) :=
  match count with
  | O => []
  | S rest =>
      let (shuffled_people, r') := shuffle r population in
      blocks shuffled_people k ng :: draws population k ng rest r'
  end.

Fixpoint random_after (population : list Person) (count : nat) (r : rng)
  : rng :=
  match count with
  | O => r
  | S rest => random_after population rest (shuffle r population).2
  end.

(** The candidates up to and including the first one of cost 0. *)
Fixpoint upto_first_zero (f : list (list Person) -> Z)
  (candidates : list (list (list Person))) : list (list (list Person)) :=
  match candidates with
  | [] => []
  | c :: rest => if f c =? 0 then [c] else c :: upto_first_zero f rest
  end.

(** All the candidates a budget of [max_iterations] allows, and those the
    loop gets to. *)
Definition candidates (self : SocialGroupingProgram) (max_iterations : Z)
  : list (list (list Person)) :=
  draws (people self) (group_size self) (num_groups self)
    (Z.to_nat max_iterations) (random_state self).

Definition sampled (self : SocialGroupingProgram) (max_iterations : Z)
  : list (list (list Person)) :=
  upto_first_zero (cost_in self) (candidates self max_iterations).

(** Best-so-far retention over a list of candidates: a candidate replaces
    the best one when its cost is strictly lower. *)
Fixpoint best_of (f : list (list Person) -> Z)
  (cs : list (list (list Person)))
  (best_groups : option (list (list Person))) (best_score : best_score_t)
  : option (list (list Person)) * best_score_t :=
  match cs with
  | [] => (best_groups, best_score)
  | c :: rest =>
      if score_lt (f c) best_score
      then best_of f rest (Some c) (score (f c))
      else best_of f rest best_groups best_score
  end.

(** [count] rounds one after the other, as the command loop of [main]
    requests them. *)
Fixpoint run_rounds (count : nat) : M unit :=
  match count with
  | O => ret tt
  | S rest => let* _ := create_new_round in run_rounds rest
  end.

(** One pass of the loop of [main] for the command read, stripped and
    lower-cased: whether the loop goes on.  [except Exception] reports an
    error of the command and goes on with the session as the error left
    it. *)
Definition handle_command (command : string) : M bool :=
  fun self =>
    let attempt : M bool :=
      if bool_decide (command ∈ ["go"; "g"]) then
        let* _ := create_new_round in
        let* _ := show_statistics in
        ret true
      else if bool_decide (command ∈ ["stat"; "s"]) then
        let* _ := show_statistics in
        ret true
      else if bool_decide (command = "save") then
        let* _ := save_history in
        ret true
      else if bool_decide (command ∈ ["quit"; "q"]) then ret false
      else ret true in
    match attempt self with
    | (Ok again, self') => (Ok again, self')
    | (Raise _, self') => (Ok true, self')
    end.

(** The loop of [main] over the commands read, up to [quit]: whether it
    was left by [quit]. *)
Fixpoint run_commands (commands : list string) : M bool :=
  match commands with
  | [] => ret false
  | command :: rest =>
      let* again := handle_command command in
      if again then run_commands rest else ret true
  end.

(** The structural invariants of a partition of [population] into groups
    of [k]. *)
Definition valid_partition (population : list Person) (k : Z)
  (groups : list (list Person)) : Prop :=
  concat groups ≡ₚ population
  ∧ Forall (fun g => Z.of_nat (length g) = k) groups
  ∧ Z.of_nat (length groups) * k = Z.of_nat (length population).

End Session.

(** *** Sample data for the examples *)

Definition female_label : string := "여".

Definition ann : Person := {| nickname := "ann"; gender := female_label |}.
Definition bob : Person := {| nickname := "bob"; gender := male_label |}.
Definition cho : Person := {| nickname := "cho"; gender := male_label |}.
Definition dee : Person := {| nickname := "dee"; gender := female_label |}.
Definition eli : Person := {| nickname := "eli"; gender := male_label |}.

(** A possible behaviour of [random.shuffle]: the state counts the calls,
    every second call reverses the list, the others leave it as it is. *)
Definition alternate (r : nat) (l : list Person) : list Person * nat :=
  (if Nat.even r then l else reverse l, S r).

(** A session as [__init__] builds it, without the failure on
    [group_size = 0]. *)
Definition session_of (population : list Person) (k : Z)
  : @SocialGroupingProgram nat :=
  {| people := population; group_size := k;
     num_groups := Z.of_nat (length population) / k;
     previous_meetings := ∅;
     round_history := [];
     current_round := 0;
     random_state := 0%nat |}.

(** *** [generate_mock_people] *)

Definition male_nicknames : list string :=
  ["코딩왕"; "개발자김"; "파이썬맨"; "자바킹"; "리액트보이"; "노드마스터"; "알고리즘천재"; "풀스택개발자";
   "백엔드고수"; "프론트마법사"; "데이터분석가"; "ML엔지니어"; "시스템관리자"; "클라우드전문가"; "사이버보안";
   "게임개발자"; "모바일앱메이커"; "웹디자이너"; "데브옵스"; "소프트웨어아키텍트"; "테크리더"; "스타트업CEO";
   "블록체인개발자"; "AI연구원"; "로봇공학자"; "사물인터넷"; "빅데이터전문가"; "클린코더"; "애자일코치";
   "스크럼마스터"; "코드리뷰어"; "버그헌터"; "퍼포먼스튜너"; "보안전문가"; "인프라엔지니어"; "솔루션아키텍트"].

Definition female_nicknames : list string :=
  ["코딩퀸"; "개발자박"; "파이썬걸"; "자바프린세스"; "리액트걸"; "노드여신"; "알고리즘요정"; "풀스택개발녀";
   "백엔드달인"; "프론트엔젤"; "데이터사이언티스트"; "AI연구원"; "UX디자이너"; "UI전문가"; "테크라이터";
   "품질관리"; "테스트자동화"; "모바일디자이너"; "제품기획자"; "프로젝트매니저"; "애자일전문가"; "사용자경험";
   "인터랙션디자이너"; "비주얼디자이너"; "콘텐츠전략가"; "소셜미디어"; "커뮤니티매니저"; "테크에반젤리스트";
   "개발자관계"; "오픈소스기여자"; "코드멘토"; "테크블로거"; "컨퍼런스스피커"; "워크샵진행자"; "온라인교육자";
   "테크유튜버"].

(** [[f"{stem}{i}" for i in range(100)]]. *)
Definition numbered (stem : string) : list string :=
  map (fun i => stem +:+ pretty i) (seq 0 100).

(** One of the two loops that fill [people]: [names[i]] for each index,
    with the given gender. *)
Fixpoint append_people (names : list string) (label : string)
  (indices : list nat) (people : list Person) : result (list Person) :=
  match indices with
  | [] => Ok people
  | i :: rest =>
      match names !! i with
      | Some nick =>
          append_people names label rest
            (people ++ [{| nickname := nick; gender := label |}])
      | None => Raise IndexError
      end
  end.

Section MockData.

(** [random.shuffle] on lists of any kind. *)
Context {rng : Type}.
Variable shuffle_any : forall A : Type, rng -> list A -> list A * rng.

(** [generate_mock_people(num_people)] from the random state [r]: the
    outcome and the random state it leaves. *)
Definition generate_mock_people (num_people : Z) (r : rng)
  : result (list Person) * rng :=
  let target_male := num_people / 2 in
  let target_female := num_people - target_male in
  let extended_male :=
    (male_nicknames ++ male_nicknames ++ male_nicknames)
    ++ numbered "개발자" in
  let extended_female :=
    (female_nicknames ++ female_nicknames ++ female_nicknames)
    ++ numbered "개발녀" in
  let (extended_male, r1) := shuffle_any string r extended_male in
  let (extended_female, r2) := shuffle_any string r1 extended_female in
  match append_people extended_male male_label
          (seq 0 (Z.to_nat target_male)) [] with
  | Raise e => (Raise e, r2)
  | Ok people =>
      match append_people extended_female female_label
              (seq 0 (Z.to_nat target_female)) people with
      | Raise e => (Raise e, r2)
      | Ok people =>
          let (people, r3) := shuffle_any Person r2 people in
          (Ok people, r3)
      end
  end.

End MockData.

(** A possible behaviour of [random.shuffle] on any list for the examples:
    it reverses the list; the state counts the calls. *)
Definition reversing (A : Type) (r : nat) (l : list A) : list A * nat :=
  (reverse l, S r).

End Program.

(** * Theorems *)

(** ** True division and truncation *)

Module PyFloatFacts.
Import PyFloat.
Local Open Scope Z_scope.

Lemma round_half_even_bounds (num den : Z) :
  0 <= num -> 0 < den ->
  num / den <= round_half_even num den <= num / den + 1
  /\ (round_half_even num den = num / den + 1 -> den <= 2 * (num mod den)).
Proof.
  intros Hnum Hden. unfold round_half_even.
  destruct (Z.ltb_spec (2 * (num mod den)) den) as [Hlt | Hge].
  - split; lia.
  - destruct (Z.ltb_spec den (2 * (num mod den))); [split; lia |].
    destruct (Z.even (num / den)); split; lia.
Qed.

Lemma quot_exponent_lower (x y : Z) :
  0 < x -> 0 < y ->
  y * 2 ^ Z.max 0 (quot_exponent x y)
  <= x * 2 ^ Z.max 0 (- quot_exponent x y).
Proof.
  intros Hx Hy. unfold quot_exponent.
  set (d := Z.log2 x - Z.log2 y).
  destruct (Z.ltb_spec (x * 2 ^ Z.max 0 (- d)) (y * 2 ^ Z.max 0 d))
    as [Hlt | Hge]; [| exact Hge].
  destruct (Z.log2_spec x Hx) as [Hx1 Hx2].
  destruct (Z.log2_spec y Hy) as [Hy1 Hy2].
  pose proof (Z.log2_nonneg x) as Hlx.
  pose proof (Z.log2_nonneg y) as Hly.
  destruct (Z.le_gt_cases 1 d) as [Hd | Hd].
  - rewrite (Z.max_r 0 (d - 1)), (Z.max_l 0 (- (d - 1))) by lia.
    rewrite Z.pow_0_r, Z.mul_1_r.
    apply Z.le_trans with (2 ^ Z.log2 x); [| exact Hx1].
    replace (Z.log2 x) with (Z.succ (Z.log2 y) + (d - 1)) by (unfold d; lia).
    rewrite Z.pow_add_r by lia.
    apply Z.mul_le_mono_nonneg_r; [apply Z.pow_nonneg |]; lia.
  - rewrite (Z.max_l 0 (d - 1)), (Z.max_r 0 (- (d - 1))) by lia.
    rewrite Z.pow_0_r, Z.mul_1_r.
    apply Z.le_trans with (2 ^ Z.log2 x * 2 ^ (- (d - 1))).
    + rewrite <- Z.pow_add_r by lia.
      replace (Z.log2 x + - (d - 1)) with (Z.succ (Z.log2 y))
        by (unfold d; lia).
      lia.
    + apply Z.mul_le_mono_nonneg_r; [apply Z.pow_nonneg |]; lia.
Qed.

Lemma quot_exponent_sign (x y : Z) :
  0 < x -> 0 < y ->
  (x < y -> quot_exponent x y < 0) /\ (y <= x -> 0 <= quot_exponent x y).
Proof.
  intros Hx Hy. unfold quot_exponent.
  set (d := Z.log2 x - Z.log2 y).
  split; intros Hxy.
  - assert (Hd : d <= 0)
      by (pose proof (Z.log2_le_mono x y ltac:(lia)); unfold d; lia).
    destruct (Z.ltb_spec (x * 2 ^ Z.max 0 (- d)) (y * 2 ^ Z.max 0 d))
      as [Hlt | Hge]; [lia |].
    destruct (Z.eq_dec d 0) as [Hd0 | Hd0]; [| lia].
    rewrite Hd0 in Hge.
    change (2 ^ Z.max 0 (- 0)) with 1 in Hge.
    change (2 ^ Z.max 0 0) with 1 in Hge. lia.
  - assert (Hd : 0 <= d)
      by (pose proof (Z.log2_le_mono y x Hxy); unfold d; lia).
    destruct (Z.ltb_spec (x * 2 ^ Z.max 0 (- d)) (y * 2 ^ Z.max 0 d))
      as [Hlt | Hge]; [| lia].
    destruct (Z.eq_dec d 0) as [Hd0 | Hd0]; [| lia].
    rewrite Hd0 in Hlt.
    change (2 ^ Z.max 0 (- 0)) with 1 in Hlt.
    change (2 ^ Z.max 0 0) with 1 in Hlt. lia.
Qed.

Lemma trunc_round_small (a b P : Z) :
  0 < a -> 0 < b -> 1 <= P ->
  (2 * P * ((a / b + 1) * b - a) <= b -> False) ->
  round_half_even (a * P) b / P = a / b.
Proof.
  intros Ha Hb HP Hcrit.
  destruct (round_half_even_bounds (a * P) b ltac:(nia) Hb) as [[Hlo Hhi] Hup].
  set (m := round_half_even (a * P) b) in *.
  pose proof (Z.div_mod a b ltac:(lia)) as Ea.
  pose proof (Z.mod_pos_bound a b Hb) as Ra.
  pose proof (Z.div_mod (a * P) b ltac:(lia)) as En.
  pose proof (Z.mod_pos_bound (a * P) b Hb) as Rn.
  set (n := a / b) in *. set (r0 := a mod b) in *.
  set (fl := a * P / b) in *. set (r := (a * P) mod b) in *.
  assert (Hn : 0 <= n) by (apply Z.div_pos; lia).
  assert (H1 : n * P <= fl) by nia.
  assert (H2 : fl < (n + 1) * P) by nia.
  assert (H3 : m < (n + 1) * P).
  { destruct (Z.eq_dec m (fl + 1)) as [Hm | Hm]; [| lia].
    destruct (Z.eq_dec (fl + 1) ((n + 1) * P)) as [Hf | Hf]; [| lia].
    exfalso. apply Hcrit. specialize (Hup Hm). nia. }
  symmetry. apply Z.div_unique with (m - n * P); lia.
Qed.

(** Below [2^53] the rounding never reaches the next integer: truncating
    the rounded quotient is floor division. *)
Lemma int_true_divide_small (a b : Z) :
  0 <= a < 2 ^ 53 -> 0 < b ->
  exists f, int_true_divide a b = Ok f /\ int_of_float f = a / b.
Proof.
  intros [Ha0 Ha] Hb. unfold int_true_divide.
  destruct (Z.eqb_spec b 0) as [| _]; [lia |].
  replace (b <? 0) with false by (symmetry; apply Z.ltb_ge; lia).
  replace (a <? 0) with false by (symmetry; apply Z.ltb_ge; lia).
  destruct (Z.eqb_spec a 0) as [-> | Hne].
  { eexists; split; [reflexivity |]. unfold int_of_float; simpl.
    now rewrite Z.div_0_l by lia. }
  assert (Hpos : 0 < a) by lia.
  rewrite (Z.abs_eq a), (Z.abs_eq b) by lia.
  pose proof (quot_exponent_lower a b Hpos Hb) as HL.
  destruct (quot_exponent_sign a b Hpos Hb) as [Hneg Hnonneg].
  set (qe := quot_exponent a b) in *.
  destruct (Z.lt_ge_cases a b) as [Hab | Hba].
  - (* the quotient is below 1 *)
    specialize (Hneg Hab). clear Hnonneg.
    set (e := Z.max (qe - 52) (-1074)).
    assert (He : -1074 <= e <= -53) by (unfold e; lia).
    rewrite (Z.max_r 0 (- e)), (Z.max_l 0 e), Z.pow_0_r, Z.mul_1_r by lia.
    replace (971 <? e) with false by (symmetry; apply Z.ltb_ge; lia).
    replace (e =? 971) with false by (symmetry; apply Z.eqb_neq; lia).
    eexists; split; [reflexivity |].
    unfold int_of_float; cbn [f_neg f_mant f_exp].
    replace (0 <=? e) with false by (symmetry; apply Z.leb_gt; lia).
    assert (HP : 2 ^ 53 <= 2 ^ (- e)) by (apply Z.pow_le_mono_r; lia).
    apply trunc_round_small; try lia.
    rewrite (Z.div_small a b) by lia. intros Hc.
    assert (2 * 2 ^ (- e) - 1 <= a) by nia. lia.
  - (* the quotient is at least 1 *)
    specialize (Hnonneg Hba). clear Hneg.
    rewrite (Z.max_r 0 qe), (Z.max_l 0 (- qe)), Z.pow_0_r, Z.mul_1_r in HL
      by lia.
    assert (Hq53 : qe < 53).
    { apply (Z.pow_lt_mono_r_iff 2); [lia | lia |].
      assert (0 < 2 ^ qe) by (apply Z.pow_pos_nonneg; lia). nia. }
    rewrite (Z.max_l (qe - 52) (-1074)) by lia.
    replace (971 <? qe - 52) with false by (symmetry; apply Z.ltb_ge; lia).
    replace (qe - 52 =? 971) with false by (symmetry; apply Z.eqb_neq; lia).
    eexists; split; [reflexivity |].
    unfold int_of_float; cbn [f_neg f_mant f_exp].
    destruct (Z.eq_dec qe 52) as [Hq | Hq].
    + rewrite Hq in *. change (52 - 52) with 0.
      change (Z.max 0 (- 0)) with 0. change (Z.max 0 0) with 0.
      change (0 <=? 0) with true. cbv iota.
      rewrite Z.pow_0_r, !Z.mul_1_r.
      assert (b = 1) by lia. subst b.
      unfold round_half_even.
      rewrite Z.mod_1_r, Z.div_1_r. reflexivity.
    + replace (0 <=? qe - 52) with false by (symmetry; apply Z.leb_gt; lia).
      rewrite (Z.max_r 0 (- (qe - 52))), (Z.max_l 0 (qe - 52)),
        Z.pow_0_r, Z.mul_1_r by lia.
      assert (HP : 0 < 2 ^ (- (qe - 52))) by (apply Z.pow_pos_nonneg; lia).
      apply trunc_round_small; try lia.
      intros Hc.
      pose proof (Z.div_mod a b ltac:(lia)) as Ea.
      pose proof (Z.mod_pos_bound a b Hb) as Ra.
      assert (Ht : 1 <= (a / b + 1) * b - a) by nia.
      assert (Hb2 : 2 * 2 ^ (- (qe - 52)) <= b) by nia.
      assert (Hpow : 2 ^ (- (qe - 52)) * 2 ^ qe = 2 ^ 52).
      { rewrite <- Z.pow_add_r by lia. f_equal. lia. }
      assert (0 < 2 ^ qe) by (apply Z.pow_pos_nonneg; lia).
      assert (2 * 2 ^ 52 <= a) by nia.
      change (2 ^ 53) with (2 * 2 ^ 52) in Ha. lia.
Qed.

End PyFloatFacts.

(** ** The bound analyzer *)

Module AnalyzerSpec.
Import PyFloat Analyzer.
Local Open Scope Z_scope.

Lemma calculate_theoretical_limits_zero_round (N0 n0 g : Z) :
  g * (n0 * (n0 - 1) / 2) = 0 ->
  _calculate_theoretical_limits N0 n0 g = Raise ZeroDivisionError.
Proof.
  intros H. unfold _calculate_theoretical_limits, int_true_divide.
  rewrite H. reflexivity.
Qed.

Lemma divisible_quotient_pos (N0 k : Z) :
  1 <= N0 -> 2 <= k -> N0 mod k = 0 -> 1 <= N0 / k.
Proof.
  intros HN Hk Hmod.
  pose proof (Z.div_mod N0 k ltac:(lia)) as E. rewrite Hmod in E.
  destruct (Z.le_gt_cases 1 (N0 / k)) as [H | H]; [exact H | nia].
Qed.

Lemma pairs_per_group_pos (k : Z) : 2 <= k -> 1 <= k * (k - 1) / 2.
Proof.
  intros Hk. apply Z.div_le_lower_bound; nia.
Qed.



(** The worked example of the specification. *)
Example analyzer_50_10 :
  exists a,
    __init__ 50 10 = Ok a
    /\ num_groups a = 5 /\ total_pairs a = 1225 /\ pairs_per_group a = 45
    /\ pairs_per_round a = 225 /\ max_practical_rounds a = 5.
Proof.
  eexists; split; [vm_compute; reflexivity |]. repeat split.
Qed.

Example analyzer_6_2 :
  exists a,
    __init__ 6 2 = Ok a
    /\ total_pairs a = 15 /\ pairs_per_group a = 1
    /\ pairs_per_round a = 3 /\ max_practical_rounds a = 5.
Proof.
  eexists; split; [vm_compute; reflexivity |]. repeat split.
Qed.


(** The analyzer's check: a remainder other than 0 raises [ValueError], a zero
    group size raises in the remainder itself. *)
Lemma analyzer_rejects_indivisible (N0 k : Z) :
  k <> 0 -> N0 mod k <> 0 -> __init__ N0 k = Raise ValueError.
Proof.
  intros Hk Hmod. unfold __init__.
  destruct (Z.eqb_spec k 0) as [| _]; [contradiction |].
  destruct (Z.eqb_spec (N0 mod k) 0) as [| _]; [contradiction |].
  reflexivity.
Qed.

Lemma analyzer_rejects_zero (N0 : Z) : __init__ N0 0 = Raise ZeroDivisionError.
Proof. reflexivity. Qed.

(** C7, for the group sizes 0 and 1: either makes [__init__] raise
    [ZeroDivisionError], whatever the population size. *)
Theorem analyzer_rejects_small_group (N0 k : Z) :
  0 <= k < 2 -> __init__ N0 k = Raise ZeroDivisionError.
Proof.
  intros Hk. assert (k = 0 \/ k = 1) as [-> | ->] by lia.
  - reflexivity.
  - unfold __init__. rewrite Z.mod_1_r. cbn [Z.eqb negb].
    apply calculate_theoretical_limits_zero_round.
    change (1 * (1 - 1) / 2) with 0. apply Z.mul_0_r.
Qed.

Lemma analyzer_rejects_small_group_witness :
  __init__ 5 1 = Raise ZeroDivisionError.
Proof.
  apply (analyzer_rejects_small_group 5 1). lia.
Defined.

(** C7 does not hold below zero: a negative group size that divides the
    population yields an analyzer. *)
Lemma analyzer_accepts_negative_group :
  -1 < 2
  /\ exists a, __init__ 5 (-1) = Ok a /\ n a = -1 /\ max_practical_rounds a = -2.
Proof.
  split; [lia |]. eexists; split; [vm_compute; reflexivity |].
  split; reflexivity.
Qed.

(** *** The round count in closed form, and the reports *)

Lemma consecutive_product_even (x : Z) : x * (x - 1) = 2 * (x * (x - 1) / 2).
Proof.
  apply Z.div_exact; [lia |]. rewrite Zmod_even, Z.even_mul, Z.even_sub.
  now destruct (Z.even x).
Qed.

(** The pairs of the population over the pairs of a round: both have the
    factor [N / 2]. *)
Lemma pair_quotient (N0 k : Z) :
  1 <= N0 -> 2 <= k -> N0 mod k = 0 ->
  N0 * (N0 - 1) / 2 / (N0 / k * (k * (k - 1) / 2)) = (N0 - 1) / (k - 1).
Proof.
  intros HN Hk Hmod.
  pose proof (consecutive_product_even N0) as HT.
  pose proof (consecutive_product_even k) as HC.
  pose proof (Z.div_mod N0 k ltac:(lia)) as HG. rewrite Hmod in HG.
  pose proof (divisible_quotient_pos N0 k HN Hk Hmod) as Hg.
  pose proof (pairs_per_group_pos k Hk) as Hp.
  set (T := N0 * (N0 - 1) / 2) in *. set (C := k * (k - 1) / 2) in *.
  set (G := N0 / k) in *.
  rewrite <- (Z.div_mul_cancel_l T (G * C) 2) by nia.
  replace (2 * T) with (N0 * (N0 - 1)) by lia.
  replace (2 * (G * C)) with (N0 * (k - 1)) by nia.
  apply Z.div_mul_cancel_l; lia.
Qed.

Lemma init_valid (N0 k : Z) :
  1 <= N0 -> 2 <= k -> N0 mod k = 0 -> N0 * (N0 - 1) / 2 < 2 ^ 53 ->
  exists f,
    __init__ N0 k
    = Ok {| N := N0; n := k; num_groups := N0 / k;
            total_pairs := N0 * (N0 - 1) / 2;
            pairs_per_group := k * (k - 1) / 2;
            pairs_per_round := N0 / k * (k * (k - 1) / 2);
            max_theoretical_rounds := f;
            max_practical_rounds := (N0 - 1) / (k - 1) |}.
Proof.
  intros HN Hk Hmod Hsmall. unfold __init__.
  destruct (Z.eqb_spec k 0) as [| _]; [lia |].
  rewrite Hmod. cbn [Z.eqb negb]. unfold _calculate_theoretical_limits.
  pose proof (divisible_quotient_pos N0 k HN Hk Hmod) as Hg.
  pose proof (pairs_per_group_pos k Hk) as Hp.
  assert (Ht : 0 <= N0 * (N0 - 1) / 2) by (apply Z.div_pos; nia).
  destruct (PyFloatFacts.int_true_divide_small (N0 * (N0 - 1) / 2)
              (N0 / k * (k * (k - 1) / 2)) ltac:(lia) ltac:(nia))
    as (f & Hf & Hint).
  rewrite Hf, Hint, pair_quotient by assumption. now exists f.
Qed.

Lemma init_small_group (N0 k : Z) :
  0 <= k < 2 -> __init__ N0 k = Raise ZeroDivisionError.
Proof.
  intros Hk. assert (k = 0 \/ k = 1) as [-> | ->] by lia; [reflexivity |].
  unfold __init__. rewrite Z.mod_1_r. cbn [Z.eqb negb].
  apply calculate_theoretical_limits_zero_round.
  change (1 * (1 - 1) / 2) with 0. apply Z.mul_0_r.
Qed.

Lemma pair_bound_population (N0 : Z) :
  1 <= N0 -> N0 * (N0 - 1) / 2 < 2 ^ 53 -> N0 - 1 < 2 ^ 53.
Proof.
  intros HN Hsmall. pose proof (consecutive_product_even N0) as HT.
  destruct (Z.le_gt_cases N0 2) as [H | H]; [change (2 ^ 53) with 9007199254740992; lia |].
  nia.
Qed.

(** X1: for a valid scenario the round count is [(N - 1) // (n - 1)]: the
    formula [print_analysis] calls an approximation is exact, and at least
    one round is always possible. *)
Theorem rounds_closed_form (N0 k : Z) :
  1 <= N0 -> 2 <= k -> N0 mod k = 0 -> N0 * (N0 - 1) / 2 < 2 ^ 53 ->
  exists a,
    __init__ N0 k = Ok a
    /\ max_practical_rounds a = (N0 - 1) / (k - 1)
    /\ 1 <= max_practical_rounds a
    /\ max_practical_rounds a * pairs_per_round a <= total_pairs a.
Proof.
  intros HN Hk Hmod Hsmall.
  destruct (init_valid N0 k HN Hk Hmod Hsmall) as (f & Hinit).
  eexists. split; [exact Hinit |].
  cbn [max_practical_rounds pairs_per_round total_pairs].
  split; [reflexivity |].
  pose proof (Z.div_mod N0 k ltac:(lia)) as HG. rewrite Hmod in HG.
  pose proof (divisible_quotient_pos N0 k HN Hk Hmod) as Hg.
  pose proof (pairs_per_group_pos k Hk) as Hp.
  split.
  - apply Z.div_le_lower_bound; nia.
  - rewrite <- (pair_quotient N0 k HN Hk Hmod), Z.mul_comm.
    apply Z.mul_div_le. nia.
Qed.

Lemma rounds_closed_form_witness :
  exists a,
    __init__ 24 4 = Ok a
    /\ max_practical_rounds a = (24 - 1) / (4 - 1)
    /\ 1 <= max_practical_rounds a
    /\ max_practical_rounds a * pairs_per_round a <= total_pairs a.
Proof.
  apply (rounds_closed_form 24 4); [lia | lia | reflexivity | reflexivity].
Defined.

Lemma quotient_at_least (a b c : Z) : 0 < b -> c <= a / b <-> c * b <= a.
Proof.
  intros Hb. split; intros H.
  - pose proof (Z.mul_div_le a b Hb). nia.
  - apply Z.div_le_lower_bound; lia.
Qed.

(** X2: for a valid scenario the rating of [compare_scenarios] is read off
    [N] and [n]: excellent from [N - 1 >= 4 (n - 1)], good from
    [N - 1 >= 2 (n - 1)], limited below, and never "impossible". *)
Theorem rating_thresholds (N0 k : Z) :
  1 <= N0 -> 2 <= k -> N0 mod k = 0 -> N0 * (N0 - 1) / 2 < 2 ^ 53 ->
  exists a,
    __init__ N0 k = Ok a
    /\ rating a <> Impossible
    /\ (rating a = Excellent <-> 4 * (k - 1) <= N0 - 1)
    /\ (rating a = Good <-> 2 * (k - 1) <= N0 - 1 < 4 * (k - 1))
    /\ (rating a = Limited <-> N0 - 1 < 2 * (k - 1)).
Proof.
  intros HN Hk Hmod Hsmall.
  destruct (init_valid N0 k HN Hk Hmod Hsmall) as (f & Hinit).
  eexists. split; [exact Hinit |].
  unfold rating. cbn [max_practical_rounds].
  pose proof (Z.div_mod N0 k ltac:(lia)) as HG. rewrite Hmod in HG.
  pose proof (divisible_quotient_pos N0 k HN Hk Hmod) as Hg.
  assert (H1 : 1 <= (N0 - 1) / (k - 1)) by (apply quotient_at_least; nia).
  pose proof (quotient_at_least (N0 - 1) (k - 1) 4 ltac:(lia)) as H4.
  pose proof (quotient_at_least (N0 - 1) (k - 1) 2 ltac:(lia)) as H2.
  destruct (Z.leb_spec 4 ((N0 - 1) / (k - 1)));
    [| destruct (Z.leb_spec 2 ((N0 - 1) / (k - 1)));
       [| destruct (Z.leb_spec 1 ((N0 - 1) / (k - 1)))]];
    repeat split; intros; try discriminate; try lia.
Qed.

Lemma rating_thresholds_witness :
  exists a,
    __init__ 60 12 = Ok a
    /\ rating a <> Impossible
    /\ (rating a = Excellent <-> 4 * (12 - 1) <= 60 - 1)
    /\ (rating a = Good <-> 2 * (12 - 1) <= 60 - 1 < 4 * (12 - 1))
    /\ (rating a = Limited <-> 60 - 1 < 2 * (12 - 1)).
Proof.
  apply (rating_thresholds 60 12); [lia | lia | reflexivity | reflexivity].
Defined.

(** X3: [print_analysis] on the analyzer of a valid scenario does not
    raise; the simple formula, cut to an integer, is the round count itself,
    and the verdict is never "infeasible". *)
Theorem print_analysis_valid (N0 k : Z) :
  1 <= N0 -> 2 <= k -> N0 mod k = 0 -> N0 * (N0 - 1) / 2 < 2 ^ 53 ->
  exists a difficulty formula interpretation,
    __init__ N0 k = Ok a
    /\ print_analysis a = Ok (difficulty, formula, interpretation)
    /\ PyFloat.int_of_float formula = max_practical_rounds a
    /\ difficulty <> Infeasible
    /\ (difficulty = Feasible <-> 3 * (k - 1) <= N0 - 1)
    /\ (interpretation = PlentyOfRounds <-> 5 * (k - 1) <= N0 - 1).
Proof.
  intros HN Hk Hmod Hsmall.
  destruct (init_valid N0 k HN Hk Hmod Hsmall) as (f & Hinit).
  pose proof (pair_bound_population N0 HN Hsmall) as Hpop.
  destruct (PyFloatFacts.int_true_divide_small (N0 - 1) (k - 1)
              ltac:(lia) ltac:(lia)) as (formula & Hformula & Hint).
  eexists _, _, formula, _. split; [exact Hinit |].
  unfold print_analysis. cbn [N n max_practical_rounds]. rewrite Hformula.
  split; [reflexivity |]. split; [exact Hint |].
  pose proof (Z.div_mod N0 k ltac:(lia)) as HG. rewrite Hmod in HG.
  pose proof (divisible_quotient_pos N0 k HN Hk Hmod) as Hg.
  assert (H1 : 1 <= (N0 - 1) / (k - 1)) by (apply quotient_at_least; nia).
  pose proof (quotient_at_least (N0 - 1) (k - 1) 3 ltac:(lia)) as H3.
  pose proof (quotient_at_least (N0 - 1) (k - 1) 5 ltac:(lia)) as H5.
  destruct (Z.leb_spec 3 ((N0 - 1) / (k - 1)));
    destruct (Z.leb_spec 1 ((N0 - 1) / (k - 1)));
    destruct (Z.leb_spec ((N0 - 1) / (k - 1)) 2);
    destruct (Z.leb_spec ((N0 - 1) / (k - 1)) 4);
    repeat split; intros; try discriminate; try lia.
Qed.

Lemma print_analysis_valid_witness :
  exists a difficulty formula interpretation,
    __init__ 50 10 = Ok a
    /\ print_analysis a = Ok (difficulty, formula, interpretation)
    /\ PyFloat.int_of_float formula = max_practical_rounds a
    /\ difficulty <> Infeasible
    /\ (difficulty = Feasible <-> 3 * (10 - 1) <= 50 - 1)
    /\ (interpretation = PlentyOfRounds <-> 5 * (10 - 1) <= 50 - 1).
Proof.
  apply (print_analysis_valid 50 10); [lia | lia | reflexivity | reflexivity].
Defined.

(** X4: [compare_scenarios] prints one row per scenario when every
    scenario is valid or has a remainder: the rows are in order, and a row
    shows N/A exactly where the group size does not divide the total. *)
Theorem compare_scenarios_rows (scenarios : list (Z * Z)) :
  Forall (fun sc =>
            (1 <= sc.1 /\ 2 <= sc.2 /\ sc.1 mod sc.2 = 0
             /\ sc.1 * (sc.1 - 1) / 2 < 2 ^ 53)
            \/ (sc.2 <> 0 /\ sc.1 mod sc.2 <> 0)) scenarios ->
  exists rows,
    compare_scenarios scenarios = (rows, Ok tt)
    /\ Forall2 (fun sc row =>
                  row_total row = sc.1 /\ row_group row = sc.2
                  /\ (row_values row = None <-> sc.1 mod sc.2 <> 0))
         scenarios rows.
Proof.
  induction 1 as [| [N0 k] scenarios Hsc _ IH].
  - exists []. split; [reflexivity | constructor].
  - destruct IH as (rows & Hrows & Hall). cbn [fst snd] in Hsc.
    cbn [compare_scenarios]. rewrite Hrows.
    destruct Hsc as [(HN & Hk & Hmod & Hsmall) | (Hk & Hmod)].
    + destruct (init_valid N0 k HN Hk Hmod Hsmall) as (f & ->).
      eexists. split; [reflexivity |]. constructor; [| exact Hall].
      cbn. repeat split; intros; try discriminate; congruence.
    + rewrite (analyzer_rejects_indivisible N0 k Hk Hmod).
      eexists. split; [reflexivity |]. constructor; [| exact Hall].
      cbn. repeat split; intros; try assumption; reflexivity.
Qed.

Lemma compare_scenarios_rows_witness :
  exists rows,
    compare_scenarios [(50, 10); (7, 2); (15, 3)] = (rows, Ok tt)
    /\ Forall2 (fun sc row =>
                  row_total row = sc.1 /\ row_group row = sc.2
                  /\ (row_values row = None <-> sc.1 mod sc.2 <> 0))
         [(50, 10); (7, 2); (15, 3)] rows.
Proof.
  apply (compare_scenarios_rows [(50, 10); (7, 2); (15, 3)]).
  constructor; [| constructor; [| constructor; [| constructor]]];
    cbn [fst snd].
  - left. repeat split; try lia; reflexivity.
  - right. split; [lia | vm_compute; discriminate].
  - left. repeat split; try lia; reflexivity.
Defined.

(** X5: a scenario with a group size of 0 or 1 ends [compare_scenarios]:
    the [ZeroDivisionError] is not a [ValueError], so it leaves the method
    after the rows printed so far and the later scenarios get no row. *)
Theorem compare_scenarios_aborts (before after : list (Z * Z))
    (rows : list scenario_row) (N0 k : Z) :
  compare_scenarios before = (rows, Ok tt) ->
  0 <= k < 2 ->
  compare_scenarios (before ++ (N0, k) :: after)
  = (rows, Raise ZeroDivisionError).
Proof.
  intros Hbefore Hk. revert rows Hbefore.
  induction before as [| [N1 k1] before IH]; intros rows Hbefore.
  - cbn in Hbefore. inversion Hbefore; subst. cbn [app compare_scenarios].
    now rewrite (init_small_group N0 k Hk).
  - cbn [app compare_scenarios] in *.
    destruct (__init__ N1 k1) as [a | e].
    + destruct (compare_scenarios before) as [rows' outcome].
      inversion Hbefore; subst. now rewrite (IH rows' eq_refl).
    + destruct e; try discriminate.
      destruct (compare_scenarios before) as [rows' outcome].
      inversion Hbefore; subst. now rewrite (IH rows' eq_refl).
Qed.

Lemma compare_scenarios_aborts_witness :
  compare_scenarios ([(7, 2)] ++ (5, 1) :: [(50, 10)])
  = ([{| row_total := 7; row_group := 2; row_values := None |}],
     Raise ZeroDivisionError).
Proof.
  apply (compare_scenarios_aborts [(7, 2)] [(50, 10)]); [reflexivity | lia].
Defined.

End AnalyzerSpec.

(** ** The grouping engine *)

Module ProgramSpec.
Import Program.
Local Open Scope Z_scope.

Section Facts.
Context {rng : Type}.
Variable shuffle : rng -> list Person -> list Person * rng.

Abbreviation Self := (@SocialGroupingProgram rng).
Abbreviation Meth := (@M rng).

(** *** Running binds and loops *)

Lemma bind_case {A B : Type} (m : Meth A) (k : A -> Meth B) (s : Self) :
  bind m k s
  = match m s with
    | (Ok a, s') => k a s'
    | (Raise e, s') => (Raise e, s')
    end.
Proof. reflexivity. Qed.

Lemma bind_ok {A B : Type} (m : Meth A) (k : A -> Meth B) (s s' : Self) a :
  m s = (Ok a, s') -> bind m k s = k a s'.
Proof. intros H. rewrite bind_case. now rewrite H. Qed.

Lemma bind_raise {A B : Type} (m : Meth A) (k : A -> Meth B) (s s' : Self) e :
  m s = (Raise e, s') -> bind m k s = (Raise e, s').
Proof. intros H. rewrite bind_case. now rewrite H. Qed.

Lemma fold_for_app {A B : Type} (l1 l2 : list A) (body : B -> A -> Meth B)
    acc (s : Self) :
  fold_for (l1 ++ l2) acc body s
  = bind (fold_for l1 acc body) (fun acc' => fold_for l2 acc' body) s.
Proof.
  revert acc s. induction l1 as [| x l1 IH]; intros acc s; [reflexivity |].
  cbn [fold_for app]. rewrite !bind_case.
  destruct (body acc x s) as [[a | e] s1]; [| reflexivity].
  rewrite IH. now rewrite bind_case.
Qed.

Lemma fold_for_ext {A B : Type} (l : list A) (body1 body2 : B -> A -> Meth B)
    acc (s : Self) :
  (forall acc x s, body1 acc x s = body2 acc x s) ->
  fold_for l acc body1 s = fold_for l acc body2 s.
Proof.
  intros Hext. revert acc s.
  induction l as [| x l IH]; intros acc s; [reflexivity |].
  cbn [fold_for]. rewrite !bind_case, Hext.
  destruct (body2 acc x s) as [[a | e] s1]; [apply IH | reflexivity].
Qed.

Lemma item_lookup {A : Type} (l : list A) (i : nat) (x : A) (s : Self) :
  l !! i = Some x -> item l i s = (Ok x, s).
Proof. intros H. unfold item. now rewrite H. Qed.

(** The inner loop at row [length pre]: the partners are the elements after
    [p]. *)
Lemma fold_for_row {B : Type} (f : B -> Person -> Person -> Meth B)
    (group pre : list Person) (p : Person) (todo : list Person) :
  forall (done : list Person) acc (s : Self),
    group = pre ++ p :: done ++ todo ->
    fold_for (seq (length pre + 1 + length done) (length todo)) acc
      (fun acc j =>
         bind (item group (length pre)) (fun gi =>
         bind (item group j) (fun gj => f acc gi gj))) s
    = fold_for (map (pair p) todo) acc (fun acc pq => f acc pq.1 pq.2) s.
Proof.
  induction todo as [| q todo IH]; intros done acc s Hg; [reflexivity |].
  cbn [length seq map fold_for].
  assert (Hi : group !! length pre = Some p).
  { rewrite Hg. now rewrite list_lookup_middle. }
  assert (Hj : group !! (length pre + 1 + length done)%nat = Some q).
  { rewrite Hg.
    replace (pre ++ p :: done ++ q :: todo)
      with ((pre ++ p :: done) ++ q :: todo) by now rewrite <- app_assoc.
    apply list_lookup_middle. rewrite length_app. cbn [length]. lia. }
  rewrite (bind_case (bind _ _)).
  rewrite (bind_ok _ _ s s _ (item_lookup _ _ _ s Hi)).
  rewrite (bind_ok _ _ s s _ (item_lookup _ _ _ s Hj)).
  rewrite (bind_case (f acc _ _)). cbn [fst snd].
  destruct (f acc p q s) as [[a | e] s1]; [| reflexivity].
  specialize (IH (done ++ [q]) a s1).
  rewrite length_app in IH. cbn [length] in IH.
  replace (length pre + 1 + (length done + 1))%nat
    with (S (length pre + 1 + length done)) in IH by lia.
  apply IH. rewrite Hg, <- app_assoc. reflexivity.
Qed.

(** The two nested index loops visit [pairs_of group]. *)
Lemma fold_for_pairs {B : Type} (f : B -> Person -> Person -> Meth B)
    (group : list Person) acc (s : Self) :
  fold_for (range 0 (length group)) acc
    (fun acc i =>
       fold_for (range (i + 1) (length group)) acc
         (fun acc j =>
            bind (item group i) (fun gi =>
            bind (item group j) (fun gj => f acc gi gj)))) s
  = fold_for (pairs_of group) acc (fun acc pq => f acc pq.1 pq.2) s.
Proof.
  unfold range. rewrite Nat.sub_0_r.
  enough (Hgen : forall rest pre acc s,
    group = pre ++ rest ->
    fold_for (seq (length pre) (length rest)) acc
      (fun acc i =>
         fold_for (seq (i + 1) (length group - (i + 1))) acc
           (fun acc j =>
              bind (item group i) (fun gi =>
              bind (item group j) (fun gj => f acc gi gj)))) s
    = fold_for (pairs_of rest) acc (fun acc pq => f acc pq.1 pq.2) s)
    by (apply (Hgen group []); reflexivity).
  clear acc s.
  induction rest as [| p rest IH]; intros pre acc s Hg; [reflexivity |].
  cbn [length seq pairs_of fold_for]. rewrite fold_for_app, !bind_case.
  replace (length group - (length pre + 1))%nat with (length rest)
    by (rewrite Hg, length_app; cbn [length]; lia).
  pose proof (fold_for_row f group pre p rest [] acc s Hg) as Hrow.
  cbn [length] in Hrow. rewrite Nat.add_0_r in Hrow. rewrite Hrow.
  destruct (fold_for (map (pair p) rest) acc
              (fun acc pq => f acc pq.1 pq.2) s) as [[a | e] s1];
    [| reflexivity].
  specialize (IH (pre ++ [p]) a s1).
  rewrite length_app in IH. cbn [length] in IH.
  replace (length pre + 1)%nat with (S (length pre)) in IH by lia.
  apply IH. rewrite Hg, <- app_assoc. reflexivity.
Qed.

(** *** The ledger: keys, lookups and [add_meetings] *)

(** [add_meetings] and [get_meeting_count] agree on the key of a pair. *)
Lemma sorted_pair_ordered (a b : string) : sorted_pair a b = ordered_pair a b.
Proof.
  unfold sorted_pair, ordered_pair, String.ltb.
  rewrite (String.compare_antisym a b).
  destruct (String.compare b a) eqn:E; cbn [CompOpp]; try reflexivity.
  apply String.compare_eq_iff in E. now subst.
Qed.

Lemma ordered_pair_comm (a b : string) : ordered_pair a b = ordered_pair b a.
Proof.
  unfold ordered_pair, String.ltb.
  rewrite (String.compare_antisym a b).
  destruct (String.compare b a) eqn:E; cbn [CompOpp]; try reflexivity.
  apply String.compare_eq_iff in E. now subst.
Qed.

Lemma set_previous_meetings_same (s : Self) :
  set_previous_meetings (previous_meetings s) s = s.
Proof. now destruct s. Qed.

Lemma set_random_state_same (s : Self) :
  set_random_state (random_state s) s = s.
Proof. now destruct s. Qed.

Lemma record_pairs_run (pairs : list (Person * Person)) (s : Self) :
  fold_for pairs tt
    (fun (_ : unit) pq =>
       let person1 := nickname pq.1 in
       let person2 := nickname pq.2 in
       if String.ltb person1 person2
       then modify (fun self =>
              set_previous_meetings
                ({[ (person1, person2) ]} ∪ previous_meetings self) self)
       else modify (fun self =>
              set_previous_meetings
                ({[ (person2, person1) ]} ∪ previous_meetings self) self)) s
  = (Ok tt,
     set_previous_meetings
       (list_to_set
          (map (fun pq => ordered_pair (nickname pq.1) (nickname pq.2)) pairs)
        ∪ previous_meetings s) s).
Proof.
  revert s. induction pairs as [| [p q] pairs IH]; intros s.
  - cbn [fold_for map list_to_set]. unfold ret.
    rewrite (left_id_L ∅ (∪)). now rewrite set_previous_meetings_same.
  - cbn [fold_for map list_to_set fst snd]. rewrite bind_case.
    cbv zeta. unfold ordered_pair at 1.
    destruct (String.ltb (nickname p) (nickname q));
      unfold modify at 1; rewrite IH; cbn [previous_meetings set_previous_meetings];
      f_equal; unfold set_previous_meetings; cbn; f_equal; set_solver.
Qed.

Lemma record_group_run (group : list Person) (s : Self) :
  for_ (range 0 (length group)) (fun i =>
    for_ (range (i + 1) (length group)) (fun j =>
      bind (item group i) (fun gi =>
      bind (item group j) (fun gj =>
        let person1 := nickname gi in
        let person2 := nickname gj in
        if String.ltb person1 person2
        then modify (fun self =>
               set_previous_meetings
                 ({[ (person1, person2) ]} ∪ previous_meetings self) self)
        else modify (fun self =>
               set_previous_meetings
                 ({[ (person2, person1) ]} ∪ previous_meetings self) self)))))
    s
  = (Ok tt,
     set_previous_meetings
       (list_to_set (group_keys group) ∪ previous_meetings s) s).
Proof.
  unfold for_, group_keys.
  rewrite <- record_pairs_run.
  rewrite <- (fold_for_pairs
                (fun (_ : unit) gi gj =>
                   let person1 := nickname gi in
                   let person2 := nickname gj in
                   if String.ltb person1 person2
                   then modify (fun self =>
                          set_previous_meetings
                            ({[ (person1, person2) ]} ∪ previous_meetings self)
                            self)
                   else modify (fun self =>
                          set_previous_meetings
                            ({[ (person2, person1) ]} ∪ previous_meetings self)
                            self))).
  apply fold_for_ext. intros [] i s'. reflexivity.
Qed.

Lemma pair_keys_cons (group : list Person) (groups : list (list Person)) :
  pair_keys (group :: groups)
  = list_to_set (group_keys group) ∪ pair_keys groups.
Proof. unfold pair_keys. cbn [map concat]. apply list_to_set_app_L. Qed.

(** [add_meetings] never raises and adds the keys of the groups' pairs. *)
Lemma add_meetings_run (groups : list (list Person)) (s : Self) :
  add_meetings groups s
  = (Ok tt,
     set_previous_meetings (pair_keys groups ∪ previous_meetings s) s).
Proof.
  unfold add_meetings, for_ at 1. revert s.
  induction groups as [| group groups IH]; intros s.
  - cbn [fold_for]. unfold ret, pair_keys. cbn [map concat list_to_set].
    rewrite (left_id_L ∅ (∪)). now rewrite set_previous_meetings_same.
  - cbn [fold_for]. rewrite bind_case, record_group_run, IH.
    rewrite pair_keys_cons.
    cbn [previous_meetings set_previous_meetings].
    f_equal. unfold set_previous_meetings; cbn; f_equal. set_solver.
Qed.

(** *** The cost model *)

Lemma get_meeting_count_run (p q : Person) (s : Self) :
  get_meeting_count p q s = (Ok (met (previous_meetings s) (p, q)), s).
Proof. reflexivity. Qed.

Lemma score_pairs_run (pairs : list (Person * Person)) (acc : Z) (s : Self) :
  fold_for pairs acc
    (fun score pq =>
       bind (get_meeting_count pq.1 pq.2) (fun c => ret (score + c))) s
  = (Ok (acc + zsum (map (met (previous_meetings s)) pairs)), s).
Proof.
  revert acc. induction pairs as [| [p q] pairs IH]; intros acc.
  - cbn [fold_for map zsum foldr]. unfold ret. now rewrite Z.add_0_r.
  - cbn [fold_for map zsum foldr fst snd].
    rewrite bind_case, (bind_ok _ _ s s _ (get_meeting_count_run p q s)).
    unfold ret at 1. rewrite IH. unfold zsum. now rewrite Z.add_assoc.
Qed.

Lemma calculate_group_score_run (group : list Person) (s : Self) :
  calculate_group_score group s
  = (Ok (repeat_count (previous_meetings s) group), s).
Proof.
  unfold calculate_group_score.
  rewrite (fold_for_pairs
             (fun score gi gj =>
                bind (get_meeting_count gi gj) (fun c => ret (score + c)))).
  now rewrite score_pairs_run.
Qed.

Lemma calculate_gender_balance_score_run (group : list Person) (s : Self) :
  calculate_gender_balance_score group s
  = (Ok (imbalance (group_size s) group), s).
Proof. reflexivity. Qed.

Lemma total_score_from (groups : list (list Person)) (acc : Z) (s : Self) :
  fold_for groups acc
    (fun total group =>
       bind (calculate_group_score group) (fun a =>
       bind (calculate_gender_balance_score group) (fun b =>
         ret (total + a + b * 2)))) s
  = (Ok (acc + cost_in s groups), s).
Proof.
  revert acc. induction groups as [| g groups IH]; intros acc.
  - cbn [fold_for]. unfold ret, cost_in, cost. cbn [map zsum foldr].
    now rewrite Z.add_0_r.
  - cbn [fold_for]. rewrite bind_case.
    rewrite (bind_ok _ _ s s _ (calculate_group_score_run g s)).
    rewrite (bind_ok _ _ s s _ (calculate_gender_balance_score_run g s)).
    unfold ret at 1. rewrite IH. unfold cost_in, cost.
    cbn [map zsum foldr]. unfold zsum. do 2 f_equal. lia.
Qed.

Lemma total_score_run (groups : list (list Person)) (s : Self) :
  total_score groups s = (Ok (cost_in s groups), s).
Proof. unfold total_score. now rewrite total_score_from. Qed.

Lemma slice_groups_from (shuffled_people : list Person) (l : list Z)
    (acc : list (list Person)) (s : Self) :
  fold_for l acc
    (fun groups i =>
       bind (gets group_size) (fun k =>
         ret (groups ++ [py_slice shuffled_people (i * k) (i * k + k)]))) s
  = (Ok (acc
         ++ map (fun i => py_slice shuffled_people (i * group_size s)
                            (i * group_size s + group_size s)) l), s).
Proof.
  revert acc. induction l as [| i l IH]; intros acc.
  - cbn [fold_for map]. unfold ret. now rewrite app_nil_r.
  - cbn [fold_for map]. rewrite bind_case.
    unfold bind at 1, gets at 1, ret at 1.
    rewrite IH, <- app_assoc. reflexivity.
Qed.

Lemma slice_groups_run (shuffled_people : list Person) (s : Self) :
  slice_groups shuffled_people s
  = (Ok (blocks shuffled_people (group_size s) (num_groups s)), s).
Proof.
  unfold slice_groups. rewrite bind_case. unfold gets at 1.
  now rewrite slice_groups_from.
Qed.

Lemma sample_candidate_run (s : Self) :
  sample_candidate shuffle s
  = (Ok (blocks (shuffle (random_state s) (people s)).1
           (group_size s) (num_groups s),
         cost_in s
           (blocks (shuffle (random_state s) (people s)).1
              (group_size s) (num_groups s))),
     set_random_state (shuffle (random_state s) (people s)).2 s).
Proof.
  unfold sample_candidate. rewrite bind_case. unfold shuffled_copy at 1.
  destruct (shuffle (random_state s) (people s)) as [sh r'].
  rewrite bind_case, slice_groups_run.
  rewrite bind_case, total_score_run. reflexivity.
Qed.

Lemma zsum_nonneg (l : list Z) : Forall (fun x => 0 <= x) l -> 0 <= zsum l.
Proof.
  induction 1 as [| x l Hx _ IH]; cbn [zsum foldr]; [lia |].
  unfold zsum in IH. lia.
Qed.

Lemma zsum_zero (l : list Z) :
  Forall (fun x => 0 <= x) l -> zsum l = 0 <-> Forall (fun x => x = 0) l.
Proof.
  induction 1 as [| x l Hx Hl IH]; cbn [zsum foldr].
  - split; [constructor | reflexivity].
  - pose proof (zsum_nonneg l Hl) as Hs. unfold zsum in *. split.
    + intros H. constructor; [lia |]. apply IH. lia.
    + intros H. inversion H as [| ? ? H0 Hrest]; subst.
      apply IH in Hrest. lia.
Qed.

Lemma elem_of_pairs_of {A : Type} (g : list A) (p q : A) :
  (p, q) ∈ pairs_of g
  <-> exists i j, (i < j)%nat /\ g !! i = Some p /\ g !! j = Some q.
Proof.
  induction g as [| x g IH]; cbn [pairs_of].
  - split; [intros H; inversion H | intros (i & j & _ & H & _); inversion H].
  - rewrite elem_of_app, list_elem_of_fmap, IH. split.
    + intros [(y & Heq & Hy) | (i & j & Hlt & Hi & Hj)].
      * inversion Heq; subst. apply list_elem_of_lookup in Hy as [j Hj].
        exists 0%nat, (S j). repeat split; [lia | exact Hj].
      * exists (S i), (S j). repeat split; [lia | exact Hi | exact Hj].
    + intros (i & j & Hlt & Hi & Hj).
      destruct j as [| j]; [lia |]. destruct i as [| i].
      * left. exists q. cbn in Hi, Hj. inversion Hi; subst.
        split; [reflexivity |]. apply list_elem_of_lookup. now exists j.
      * right. exists i, j. repeat split; [lia | exact Hi | exact Hj].
Qed.

Lemma met_range (L : gset (string * string)) (pq : Person * Person) :
  0 <= met L pq.
Proof. unfold met. case_bool_decide; lia. Qed.

Lemma met_zero (L : gset (string * string)) (pq : Person * Person) :
  met L pq = 0 <-> sorted_pair (nickname pq.1) (nickname pq.2) ∉ L.
Proof. unfold met. case_bool_decide; split; intros; try lia; tauto. Qed.

Lemma repeat_count_nonneg (L : gset (string * string)) (g : list Person) :
  0 <= repeat_count L g.
Proof.
  apply zsum_nonneg, Forall_forall. intros x Hx.
  apply list_elem_of_fmap in Hx as (pq & -> & _). apply met_range.
Qed.

(** No repeat in a group: none of its pairs is in the ledger. *)
Lemma repeat_count_zero (L : gset (string * string)) (g : list Person) :
  repeat_count L g = 0
  <-> forall i j p q, (i < j)%nat -> g !! i = Some p -> g !! j = Some q ->
        sorted_pair (nickname p) (nickname q) ∉ L.
Proof.
  unfold repeat_count. rewrite zsum_zero.
  2: { apply Forall_forall. intros x Hx.
       apply list_elem_of_fmap in Hx as (pq & -> & _). apply met_range. }
  rewrite Forall_forall. split.
  - intros H i j p q Hlt Hi Hj.
    apply (met_zero L (p, q)), H, list_elem_of_fmap.
    exists (p, q). split; [reflexivity |].
    apply elem_of_pairs_of. now exists i, j.
  - intros H x Hx. apply list_elem_of_fmap in Hx as ([p q] & -> & Hpq).
    apply met_zero. apply elem_of_pairs_of in Hpq as (i & j & Hlt & Hi & Hj).
    now apply (H i j).
Qed.

(** Whoever is not counted as male is counted in the other category. *)
Lemma other_count_complement (g : list Person) :
  other_count g = Z.of_nat (length g) - male_count g.
Proof.
  unfold other_count, male_count.
  induction g as [| p g IH]; [reflexivity |].
  rewrite !filter_cons. cbn [length].
  destruct (decide (gender p = male_label)) as [Hm | Hm];
    destruct (decide (gender p ≠ male_label)) as [Hn | Hn];
    try contradiction; cbn [length]; lia.
Qed.

Lemma imbalance_nonneg (k : Z) (g : list Person) : 0 <= imbalance k g.
Proof. unfold imbalance. lia. Qed.

Lemma imbalance_zero (k : Z) (g : list Person) :
  imbalance k g = 0
  <-> male_count g = k / 2 /\ other_count g = k - k / 2.
Proof. rewrite other_count_complement. unfold imbalance. lia. Qed.

Lemma cost_nonneg (L : gset (string * string)) (k : Z)
    (groups : list (list Person)) :
  0 <= cost L k groups.
Proof.
  apply zsum_nonneg, Forall_forall. intros x Hx.
  apply list_elem_of_fmap in Hx as (g & -> & _).
  pose proof (repeat_count_nonneg L g). pose proof (imbalance_nonneg k g). lia.
Qed.

(** The lookup does not depend on the order of the two members. *)
Lemma get_meeting_count_comm (p q : Person) (s : Self) :
  get_meeting_count p q s = get_meeting_count q p s.
Proof.
  rewrite !get_meeting_count_run. unfold met. cbn [fst snd].
  now rewrite !sorted_pair_ordered, (ordered_pair_comm (nickname p)).
Qed.

(** C2: the candidate's [total_score] is 0 exactly when no two members of any
    group, taken in either order, have the tuple [add_meetings] stores for
    them in the ledger, and every group has [k // 2] members with the male
    label and [k - k // 2] others; the lookup of a pair gives the same count
    in both orders. *)
Theorem cost_zero_iff (groups : list (list Person)) (s : Self) :
  exists c,
    total_score groups s = (Ok c, s)
    /\ c = cost_in s groups
    /\ (c = 0
        <-> forall g, g ∈ groups ->
              (forall i j p q,
                  (i < j)%nat -> g !! i = Some p -> g !! j = Some q ->
                  (ordered_pair (nickname p) (nickname q)
                     ∉ previous_meetings s)
                  /\ (ordered_pair (nickname q) (nickname p)
                        ∉ previous_meetings s))
              /\ male_count g = group_size s / 2
              /\ other_count g = group_size s - group_size s / 2)
    /\ (forall p q,
          get_meeting_count p q s = get_meeting_count q p s
          /\ (get_meeting_count p q s).1
             = Ok (if bool_decide (ordered_pair (nickname p) (nickname q)
                                   ∈ previous_meetings s)
                   then 1 else 0)).
Proof.
  exists (cost_in s groups). split; [apply total_score_run |].
  split; [reflexivity |]. split.
  2: { intros p q. split; [apply get_meeting_count_comm |].
       rewrite get_meeting_count_run. unfold met. cbn [fst snd].
       now rewrite sorted_pair_ordered. }
  unfold cost_in, cost. rewrite zsum_zero.
  2: { apply Forall_forall. intros x Hx.
       apply list_elem_of_fmap in Hx as (g & -> & _).
       pose proof (repeat_count_nonneg (previous_meetings s) g).
       pose proof (imbalance_nonneg (group_size s) g). lia. }
  rewrite Forall_forall. split.
  - intros H g Hg.
    assert (Hz : repeat_count (previous_meetings s) g
                 + imbalance (group_size s) g * 2 = 0).
    { apply H, list_elem_of_fmap. now exists g. }
    pose proof (repeat_count_nonneg (previous_meetings s) g) as Hr.
    pose proof (imbalance_nonneg (group_size s) g) as Hb.
    split; [| apply imbalance_zero; lia].
    assert (Hzero : repeat_count (previous_meetings s) g = 0) by lia.
    intros i j p q Hlt Hi Hj.
    pose proof (proj1 (repeat_count_zero _ _) Hzero i j p q Hlt Hi Hj) as Hk.
    rewrite sorted_pair_ordered in Hk.
    split; [exact Hk |].
    now rewrite (ordered_pair_comm (nickname q) (nickname p)).
  - intros H x Hx. apply list_elem_of_fmap in Hx as (g & -> & Hg).
    destruct (H g Hg) as [Hr Hb].
    assert (Hzero : repeat_count (previous_meetings s) g = 0).
    { apply repeat_count_zero. intros i j p q Hlt Hi Hj.
      rewrite sorted_pair_ordered. exact (proj1 (Hr i j p q Hlt Hi Hj)). }
    apply imbalance_zero in Hb. lia.
Qed.

(** C10: the balance score of a group is computed from the number [m] of its
    members with the male label and from its length: it is
    [|m - k // 2| + |(len(g) - m) - (k - k // 2)|], everybody without the
    male label counting toward the second category; for a group of [k]
    members this is [|m - k // 2| + |(k - m) - (k - k // 2)|]. *)
Theorem gender_balance_from_male_count (g : list Person) (s : Self) :
  calculate_gender_balance_score g s
  = (Ok (Z.abs (male_count g - group_size s / 2)
         + Z.abs (Z.of_nat (length g) - male_count g
                  - (group_size s - group_size s / 2))), s)
  /\ other_count g = Z.of_nat (length g) - male_count g
  /\ (Z.of_nat (length g) = group_size s ->
      calculate_gender_balance_score g s
      = (Ok (Z.abs (male_count g - group_size s / 2)
             + Z.abs (group_size s - male_count g
                      - (group_size s - group_size s / 2))), s)
      /\ other_count g = group_size s - male_count g).
Proof.
  rewrite calculate_gender_balance_score_run, other_count_complement.
  unfold imbalance.
  split; [reflexivity |]. split; [reflexivity |].
  intros Hlen. rewrite Hlen. split; reflexivity.
Qed.

(** *** The search loop *)

Lemma score_lt_zero (bs : best_score_t) :
  (forall b, bs = score b -> 0 < b) -> score_lt 0 bs = true.
Proof.
  intros H. destruct bs as [| b]; [reflexivity |].
  cbn [score_lt]. apply Z.ltb_lt. now apply H.
Qed.

(** The loop draws the candidates up to the first of cost 0, keeps the best
    of them, and leaves everything but the random state as it was. *)
Lemma search_loop_run (count : nat) :
  forall (bg : option (list (list Person))) (bs : best_score_t) (s : Self),
    (forall b, bs = score b -> 0 < b) ->
    search_loop shuffle count bg bs s
    = (Ok (best_of (cost_in s)
             (upto_first_zero (cost_in s)
                (draws shuffle (people s) (group_size s) (num_groups s)
                   count (random_state s))) bg bs),
       set_random_state
         (random_after shuffle (people s)
            (length
               (upto_first_zero (cost_in s)
                  (draws shuffle (people s) (group_size s) (num_groups s)
                     count (random_state s))))
            (random_state s)) s).
Proof.
  induction count as [| count IH]; intros bg bs s Hbs.
  - cbn [search_loop draws upto_first_zero best_of length random_after].
    unfold ret. now rewrite set_random_state_same.
  - cbn [search_loop draws]. rewrite bind_case, sample_candidate_run.
    destruct (shuffle (random_state s) (people s)) as [sh r'] eqn:Esh.
    cbn [fst snd upto_first_zero].
    set (c := blocks sh (group_size s) (num_groups s)).
    destruct (Z.eqb_spec (cost_in s c) 0) as [Hz | Hnz].
    + rewrite Hz, (score_lt_zero bs Hbs).
      cbn [best_of length random_after]. rewrite Hz, (score_lt_zero bs Hbs).
      rewrite Esh. reflexivity.
    + assert (Hpos : 0 < cost_in s c)
        by (pose proof (cost_nonneg (previous_meetings s) (group_size s) c);
            unfold cost_in in *; lia).
      cbn [best_of length random_after]. rewrite Esh. cbn [snd].
      destruct (score_lt (cost_in s c) bs).
      * rewrite IH by (intros b Hb; inversion Hb; subst; exact Hpos).
        reflexivity.
      * rewrite IH by exact Hbs. reflexivity.
Qed.

Lemma best_of_min (f : list (list Person) -> Z)
    (cs : list (list (list Person))) :
  forall (bg : option (list (list Person))) (bs : best_score_t),
    match bg, bs with
    | None, inf => True
    | Some g, score b => f g = b
    | _, _ => False
    end ->
    cs <> [] \/ bg <> None ->
    exists g,
      best_of f cs bg bs = (Some g, score (f g))
      /\ (g ∈ cs \/ bg = Some g)
      /\ (forall c, c ∈ cs -> f g <= f c)
      /\ (forall g0, bg = Some g0 -> f g <= f g0).
Proof.
  induction cs as [| c cs IH]; intros bg bs Hinv Hne.
  - destruct bg as [g |]; [| destruct Hne; congruence].
    destruct bs as [| b]; [contradiction |]. subst b.
    exists g. cbn [best_of]. repeat split.
    + now right.
    + intros c Hc. inversion Hc.
    + intros g0 Hg0. inversion Hg0. lia.
  - cbn [best_of]. destruct (score_lt (f c) bs) eqn:Hlt.
    + destruct (IH (Some c) (score (f c)) eq_refl ltac:(right; congruence))
        as (g & Hrun & Hin & Hmin & Hprev).
      exists g. split; [exact Hrun |]. repeat split.
      * left. destruct Hin as [Hin | Hin];
          [now apply list_elem_of_further | inversion Hin; apply list_elem_of_here].
      * intros c' Hc'. apply elem_of_cons in Hc' as [-> | Hc'];
          [now apply Hprev | now apply Hmin].
      * intros g0 ->. destruct bs as [| b]; [contradiction |]. subst b.
        cbn [score_lt] in Hlt. apply Z.ltb_lt in Hlt.
        specialize (Hprev c eq_refl). lia.
    + destruct bs as [| b]; [discriminate |].
      destruct bg as [g0 |]; [| contradiction]. subst b.
      cbn [score_lt] in Hlt. apply Z.ltb_ge in Hlt.
      destruct (IH (Some g0) (score (f g0)) eq_refl ltac:(right; congruence))
        as (g & Hrun & Hin & Hmin & Hprev).
      exists g. split; [exact Hrun |]. repeat split.
      * destruct Hin as [Hin | Hin];
          [left; now apply list_elem_of_further | now right].
      * intros c' Hc'. apply elem_of_cons in Hc' as [-> | Hc'];
          [specialize (Hprev g0 eq_refl); lia | now apply Hmin].
      * exact Hprev.
Qed.

Lemma length_draws (population : list Person) (k ng : Z) (count : nat)
    (r : rng) :
  length (draws shuffle population k ng count r) = count.
Proof.
  revert r. induction count as [| count IH]; intros r; [reflexivity |].
  cbn [draws]. destruct (shuffle r population) as [sh r'].
  cbn [length]. now rewrite IH.
Qed.

(** The sampled candidates are a prefix of the drawn ones: it has no
    candidate of cost 0 before its last, and stops short only on one. *)
Lemma upto_first_zero_prefix (f : list (list Person) -> Z)
    (cs : list (list (list Person))) :
  exists k : nat,
    upto_first_zero f cs = take k cs
    /\ (k <= length cs)%nat
    /\ (cs <> [] -> (1 <= k)%nat)
    /\ (forall i c, (i + 1 < k)%nat -> cs !! i = Some c -> f c <> 0)
    /\ ((k < length cs)%nat ->
        exists c, c ∈ upto_first_zero f cs /\ f c = 0).
Proof.
  induction cs as [| c cs IH].
  - exists 0%nat. cbn. repeat split; try lia; try congruence.
  - cbn [upto_first_zero]. destruct (Z.eqb_spec (f c) 0) as [Hz | Hnz].
    + exists 1%nat. cbn [take length]. rewrite take_0. repeat split; try lia.
      intros _. exists c. split; [apply list_elem_of_here | exact Hz].
    + destruct IH as (k & Hk & Hle & Hne & Hbefore & Hstop).
      exists (S k). cbn [take length]. rewrite Hk. repeat split; try lia.
      * intros [| i] c' Hi Hc'.
        -- cbn in Hc'. inversion Hc'; subst. exact Hnz.
        -- cbn in Hc'. apply (Hbefore i c'); [lia | exact Hc'].
      * intros Hlt. destruct Hstop as (c' & Hin & Hc'); [lia |].
        exists c'. split; [| exact Hc'].
        rewrite <- Hk. now apply list_elem_of_further.
Qed.

Lemma generate_groups_genetic_run (max_iterations : Z) (s : Self) :
  generate_groups_genetic shuffle max_iterations s
  = (Ok (best_of (cost_in s) (sampled shuffle s max_iterations) None inf).1,
     set_random_state
       (random_after shuffle (people s)
          (length (sampled shuffle s max_iterations)) (random_state s)) s).
Proof.
  unfold generate_groups_genetic. rewrite bind_case.
  rewrite search_loop_run by (intros b Hb; discriminate).
  fold (candidates shuffle s max_iterations).
  fold (sampled shuffle s max_iterations).
  destruct (best_of (cost_in s) (sampled shuffle s max_iterations) None inf).
  reflexivity.
Qed.

Lemma sampled_nonempty (max_iterations : Z) (s : Self) :
  1 <= max_iterations -> sampled shuffle s max_iterations <> [].
Proof.
  intros HI. unfold sampled, candidates.
  destruct (Z.to_nat max_iterations) as [| count] eqn:E; [lia |].
  cbn [draws]. destruct (shuffle (random_state s) (people s)) as [sh r'].
  cbn [upto_first_zero]. now destruct (_ =? 0).
Qed.

Lemma generate_groups_genetic_best (max_iterations : Z) (s : Self) :
  1 <= max_iterations ->
  exists best,
    generate_groups_genetic shuffle max_iterations s
    = (Ok (Some best),
       set_random_state
         (random_after shuffle (people s)
            (length (sampled shuffle s max_iterations)) (random_state s)) s)
    /\ best ∈ sampled shuffle s max_iterations
    /\ (forall c, c ∈ sampled shuffle s max_iterations ->
          cost_in s best <= cost_in s c).
Proof.
  intros HI. rewrite generate_groups_genetic_run.
  destruct (best_of_min (cost_in s) (sampled shuffle s max_iterations)
              None inf I (or_introl (sampled_nonempty _ s HI)))
    as (g & Hrun & Hin & Hmin & _).
  exists g. rewrite Hrun. cbn [fst]. split; [reflexivity |].
  split; [| exact Hmin]. destruct Hin as [Hin | Hin]; [exact Hin | discriminate].
Qed.

(** C3: with a budget of at least one iteration the search returns a
    partition; it is one of the sampled candidates and none of them costs
    less; the sampled candidates are the first [k] drawn ones, none before
    the last of cost 0, and the loop stops before the budget only on a
    candidate of cost 0, which it returns; the random state has advanced by
    exactly [k] shuffles. *)
Theorem search_returns_best_sampled (max_iterations : Z) (s : Self) :
  1 <= max_iterations ->
  exists (best : list (list Person)) (s' : Self) (k : nat),
    generate_groups_genetic shuffle max_iterations s = (Ok (Some best), s')
    /\ sampled shuffle s max_iterations
       = take k (candidates shuffle s max_iterations)
    /\ (1 <= k <= Z.to_nat max_iterations)%nat
    /\ best ∈ sampled shuffle s max_iterations
    /\ (forall c, c ∈ sampled shuffle s max_iterations ->
          cost_in s best <= cost_in s c)
    /\ (forall i c, (i + 1 < k)%nat ->
          candidates shuffle s max_iterations !! i = Some c ->
          cost_in s c <> 0)
    /\ ((k < Z.to_nat max_iterations)%nat -> cost_in s best = 0)
    /\ s' = set_random_state
              (random_after shuffle (people s) k (random_state s)) s.
Proof.
  intros HI.
  destruct (generate_groups_genetic_best max_iterations s HI)
    as (best & Hrun & Hin & Hmin).
  destruct (upto_first_zero_prefix (cost_in s)
              (candidates shuffle s max_iterations))
    as (k & Hk & Hle & Hne & Hbefore & Hstop).
  fold (sampled shuffle s max_iterations) in Hk, Hstop.
  assert (Hlen : length (candidates shuffle s max_iterations)
                 = Z.to_nat max_iterations)
    by apply length_draws.
  rewrite Hlen in Hle, Hstop.
  assert (Hk1 : (1 <= k)%nat).
  { apply Hne. intros Hnil. rewrite Hnil in Hlen. cbn in Hlen. lia. }
  exists best, (set_random_state
                  (random_after shuffle (people s) k (random_state s)) s), k.
  split.
  { rewrite Hrun. do 3 f_equal. rewrite Hk, length_take, Hlen. lia. }
  repeat split; try assumption; try lia.
  intros Hlt. destruct (Hstop Hlt) as (c & Hc & Hzero).
  pose proof (Hmin c Hc) as Hbest.
  pose proof (cost_nonneg (previous_meetings s) (group_size s) best) as H0.
  unfold cost_in in *. lia.
Qed.

(** C9: with a budget of 0 (or less) the loop body never runs and the
    search returns [None]; it returns [None] for no other budget. *)
Theorem zero_budget_returns_none (max_iterations : Z) (s : Self) :
  generate_groups_genetic shuffle 0 s = (Ok None, s)
  /\ ((generate_groups_genetic shuffle max_iterations s).1 = Ok None
      <-> max_iterations <= 0).
Proof.
  split.
  - rewrite generate_groups_genetic_run. unfold sampled, candidates.
    change (Z.to_nat 0) with 0%nat.
    cbn [draws upto_first_zero best_of length random_after fst].
    now rewrite set_random_state_same.
  - split.
    + intros Hnone. destruct (Z.le_gt_cases max_iterations 0) as [H | H];
        [exact H | exfalso].
      destruct (generate_groups_genetic_best max_iterations s ltac:(lia))
        as (best & Hrun & _).
      rewrite Hrun in Hnone. discriminate.
    + intros Hle. rewrite generate_groups_genetic_run. cbn [fst].
      unfold sampled, candidates.
      replace (Z.to_nat max_iterations) with 0%nat by lia. reflexivity.
Qed.

(** *** Committing a round *)

Lemma elem_of_concat {A : Type} (x : A) (ls : list (list A)) :
  x ∈ concat ls <-> exists l, x ∈ l /\ l ∈ ls.
Proof.
  induction ls as [| l ls IH]; cbn [concat].
  - split; [intros H; inversion H | intros (l & _ & H); inversion H].
  - rewrite elem_of_app, IH. split.
    + intros [H | (l' & Hx & Hl')].
      * exists l. split; [exact H | apply list_elem_of_here].
      * exists l'. split; [exact Hx | now apply list_elem_of_further].
    + intros (l' & Hx & Hl'). apply elem_of_cons in Hl' as [-> | Hl'];
        [now left | right; now exists l'].
Qed.

Lemma elem_of_pair_keys (groups : list (list Person)) (key : string * string) :
  key ∈ pair_keys groups
  <-> exists g i j p q,
        g ∈ groups /\ (i < j)%nat /\ g !! i = Some p /\ g !! j = Some q
        /\ key = ordered_pair (nickname p) (nickname q).
Proof.
  unfold pair_keys. rewrite elem_of_list_to_set, elem_of_concat. split.
  - intros (keys & Hkey & Hkeys).
    apply list_elem_of_fmap in Hkeys as (g & -> & Hg).
    unfold group_keys in Hkey.
    apply list_elem_of_fmap in Hkey as ([p q] & -> & Hpq).
    apply elem_of_pairs_of in Hpq as (i & j & Hlt & Hi & Hj).
    now exists g, i, j, p, q.
  - intros (g & i & j & p & q & Hg & Hlt & Hi & Hj & ->).
    exists (group_keys g). split.
    + unfold group_keys. apply list_elem_of_fmap. exists (p, q).
      split; [reflexivity |]. apply elem_of_pairs_of. now exists i, j.
    + apply list_elem_of_fmap. now exists g.
Qed.

(** What [add_meetings] records, [get_meeting_count] finds. *)
Lemma recorded_pairs_are_met (groups : list (list Person)) (s : Self)
    (g : list Person) (i j : nat) (p q : Person) :
  g ∈ groups -> (i < j)%nat -> g !! i = Some p -> g !! j = Some q ->
  get_meeting_count p q (add_meetings groups s).2
  = (Ok 1, (add_meetings groups s).2).
Proof.
  intros Hg Hlt Hi Hj. rewrite add_meetings_run. cbn [snd].
  rewrite get_meeting_count_run. unfold met. cbn [fst snd].
  cbn [previous_meetings set_previous_meetings].
  rewrite bool_decide_eq_true_2; [reflexivity |].
  rewrite sorted_pair_ordered. apply elem_of_union_l, elem_of_pair_keys.
  now exists g, i, j, p, q.
Qed.

Lemma print_groups_from (groups : list (list Person)) (acc : Z) (s : Self) :
  fold_for groups acc
    (fun total group =>
       bind (calculate_group_score group) (fun c => ret (total + c))) s
  = (Ok (acc + zsum (map (repeat_count (previous_meetings s)) groups)), s).
Proof.
  revert acc. induction groups as [| g groups IH]; intros acc.
  - cbn [fold_for map zsum foldr]. unfold ret. now rewrite Z.add_0_r.
  - cbn [fold_for map zsum foldr]. rewrite bind_case.
    rewrite (bind_ok _ _ s s _ (calculate_group_score_run g s)).
    unfold ret at 1. rewrite IH. unfold zsum. now rewrite Z.add_assoc.
Qed.

Lemma print_groups_run (groups : option (list (list Person))) (s : Self) :
  print_groups groups s
  = (match groups with Some _ => Ok tt | None => Raise TypeError end, s).
Proof.
  destruct groups as [groups |]; [| reflexivity].
  unfold print_groups. rewrite bind_case. now rewrite print_groups_from.
Qed.

(** [create_new_round] never raises: it commits the partition the search
    returns, whatever it is. *)
Lemma create_new_round_run (s : Self) :
  exists best,
    create_new_round shuffle s
    = (Ok (Some best),
       set_round_history (round_history s ++ [best])
         (set_previous_meetings (pair_keys best ∪ previous_meetings s)
            (set_random_state
               (random_after shuffle (people s)
                  (length (sampled shuffle s 1000)) (random_state s))
               (set_current_round (current_round s + 1) s))))
    /\ best ∈ sampled shuffle s 1000
    /\ (forall c, c ∈ sampled shuffle s 1000 -> cost_in s best <= cost_in s c).
Proof.
  destruct (generate_groups_genetic_best 1000
              (set_current_round (current_round s + 1) s) ltac:(lia))
    as (best & Hrun & Hin & Hmin).
  exists best. split; [| split; [exact Hin | exact Hmin]].
  unfold create_new_round. rewrite bind_case. unfold modify at 1.
  rewrite bind_case, Hrun. rewrite bind_case, print_groups_run.
  rewrite bind_case, add_meetings_run. reflexivity.
Qed.

Lemma run_rounds_ledger_grows (count : nat) :
  forall s : Self,
    previous_meetings s ⊆ previous_meetings (run_rounds shuffle count s).2.
Proof.
  induction count as [| count IH]; intros s; [reflexivity |].
  cbn [run_rounds]. rewrite bind_case.
  destruct (create_new_round_run s) as (best & Hrun & _). rewrite Hrun.
  etransitivity; [| apply IH]. cbn [previous_meetings set_round_history
    set_previous_meetings]. set_solver.
Qed.

(** C4: [add_meetings] adds the keys of the pairs of its groups, and only
    those; the ledger grows by the number of keys that were not in it;
    recording the same groups again changes nothing; over any number of
    rounds the ledger does not shrink. *)
Theorem add_meetings_adds_new_pairs (groups : list (list Person)) (s : Self) :
  exists s' : Self,
    add_meetings groups s = (Ok tt, s')
    /\ (forall key,
          key ∈ previous_meetings s'
          <-> key ∈ previous_meetings s
              \/ exists g i j p q,
                   g ∈ groups /\ (i < j)%nat
                   /\ g !! i = Some p /\ g !! j = Some q
                   /\ key = ordered_pair (nickname p) (nickname q))
    /\ size (previous_meetings s')
       = (size (previous_meetings s)
          + size (pair_keys groups ∖ previous_meetings s))%nat
    /\ add_meetings groups s' = (Ok tt, s')
    /\ (size (previous_meetings s) <= size (previous_meetings s'))%nat
    /\ (forall count,
          (size (previous_meetings s)
           <= size (previous_meetings (run_rounds shuffle count s).2))%nat).
Proof.
  exists (set_previous_meetings (pair_keys groups ∪ previous_meetings s) s).
  split; [apply add_meetings_run |].
  cbn [previous_meetings set_previous_meetings]. split.
  { intros key. rewrite elem_of_union, elem_of_pair_keys. tauto. }
  split.
  { rewrite (comm_L (∪)). apply size_union_alt. }
  split.
  { rewrite add_meetings_run. f_equal.
    unfold set_previous_meetings. cbn. f_equal. set_solver. }
  split.
  { apply subseteq_size. set_solver. }
  intros count. apply subseteq_size, run_rounds_ledger_grows.
Qed.

(** *** What leaves the ledger alone *)

Lemma show_statistics_state (s : Self) : (show_statistics s).2 = s.
Proof.
  unfold show_statistics, bind, gets, lift, ret, raise.
  repeat case_match; simplify_eq; reflexivity.
Qed.

Lemma save_history_state (s : Self) : (save_history s).2 = s.
Proof. reflexivity. Qed.

(** C8: evaluating the scores, the search, the printing, the statistics
    and the export leave the ledger as it is (the first five the whole
    object, the search all but the random state); [create_new_round] changes
    it by the keys of the partition it commits. *)
Theorem ledger_changes_only_on_commit (s : Self) (p q : Person)
    (group : list Person) (groups : list (list Person))
    (max_iterations : Z) :
  (get_meeting_count p q s).2 = s
  /\ (calculate_group_score group s).2 = s
  /\ (calculate_gender_balance_score group s).2 = s
  /\ (total_score groups s).2 = s
  /\ (print_groups (Some groups) s).2 = s
  /\ previous_meetings (generate_groups_genetic shuffle max_iterations s).2
     = previous_meetings s
  /\ (show_statistics s).2 = s
  /\ (save_history s).2 = s
  /\ exists committed,
       (create_new_round shuffle s).1 = Ok (Some committed)
       /\ previous_meetings (create_new_round shuffle s).2
          = pair_keys committed ∪ previous_meetings s.
Proof.
  split; [reflexivity |].
  split; [now rewrite calculate_group_score_run |].
  split; [reflexivity |].
  split; [now rewrite total_score_run |].
  split; [now rewrite print_groups_run |].
  split; [now rewrite generate_groups_genetic_run |].
  split; [apply show_statistics_state |].
  split; [reflexivity |].
  destruct (create_new_round_run s) as (best & Hrun & _).
  exists best. rewrite Hrun. split; reflexivity.
Qed.

(** *** The blocks of a shuffled list *)

Lemma py_slice_block {A : Type} (l : list A) (k : Z) (i : nat) :
  0 < k -> Z.of_nat i * k + k <= Z.of_nat (length l) ->
  py_slice l (Z.of_nat i * k) (Z.of_nat i * k + k)
  = take (Z.to_nat k) (drop (i * Z.to_nat k) l).
Proof.
  intros Hk Hle. unfold py_slice, clamp_index.
  assert (H0 : 0 <= Z.of_nat i * k) by nia.
  replace (Z.of_nat i * k <? 0) with false by (symmetry; apply Z.ltb_ge; lia).
  replace (Z.of_nat i * k + k <? 0) with false
    by (symmetry; apply Z.ltb_ge; lia).
  rewrite !Z.min_l by lia. f_equal; [f_equal; lia |]. f_equal. nia.
Qed.

Lemma blocks_concat (l : list Person) (k : Z) (count : nat) :
  0 < k -> Z.of_nat count * k <= Z.of_nat (length l) ->
  concat (map (fun i => py_slice l (i * k) (i * k + k))
            (map Z.of_nat (seq 0 count)))
  = take (count * Z.to_nat k) l
  /\ Forall (fun g => Z.of_nat (length g) = k)
       (map (fun i => py_slice l (i * k) (i * k + k))
          (map Z.of_nat (seq 0 count))).
Proof.
  intros Hk. induction count as [| count IH]; intros Hle.
  - cbn. split; [reflexivity | constructor].
  - destruct IH as [IHc IHf]; [nia |].
    rewrite seq_S, !map_app. cbn [map Nat.add].
    rewrite py_slice_block by nia. split.
    + rewrite concat_app, IHc. cbn [concat]. rewrite app_nil_r.
      rewrite take_take_drop. f_equal. lia.
    + apply Forall_app. split; [exact IHf |].
      constructor; [| constructor].
      rewrite length_take, length_drop. nia.
Qed.

Lemma blocks_valid (l population : list Person) (k ng : Z) :
  l ≡ₚ population -> 0 < k ->
  ng = Z.of_nat (length population) / k ->
  Z.of_nat (length population) mod k = 0 ->
  valid_partition population k (blocks l k ng).
Proof.
  intros Hperm Hk Hng Hmod.
  assert (Hlen : length l = length population) by now rewrite Hperm.
  assert (Hexact : ng * k = Z.of_nat (length l)).
  { rewrite Hlen, Hng.
    pose proof (Z.div_mod (Z.of_nat (length population)) k ltac:(lia)). lia. }
  assert (Hng0 : 0 <= ng) by (rewrite Hng; apply Z.div_pos; lia).
  unfold valid_partition, blocks, zrange.
  destruct (blocks_concat l k (Z.to_nat ng) Hk ltac:(lia)) as [Hc Hf].
  split; [| split].
  - rewrite Hc, take_ge; [exact Hperm | nia].
  - exact Hf.
  - rewrite !length_map, length_seq. lia.
Qed.

Lemma elem_of_draws (population : list Person) (k ng : Z) (count : nat)
    (r : rng) (c : list (list Person)) :
  c ∈ draws shuffle population k ng count r ->
  exists r0, c = blocks (shuffle r0 population).1 k ng.
Proof.
  revert r. induction count as [| count IH]; intros r; cbn [draws].
  - intros H. inversion H.
  - destruct (shuffle r population) as [sh r'] eqn:E.
    intros H. apply elem_of_cons in H as [-> | H]; [| now apply (IH r')].
    exists r. now rewrite E.
Qed.

Lemma upto_first_zero_subseteq (f : list (list Person) -> Z)
    (cs : list (list (list Person))) (c : list (list Person)) :
  c ∈ upto_first_zero f cs -> c ∈ cs.
Proof.
  induction cs as [| c0 cs IH]; cbn [upto_first_zero]; [easy |].
  destruct (f c0 =? 0).
  - intros H. apply elem_of_cons in H as [-> | H];
      [apply list_elem_of_here | inversion H].
  - intros H. apply elem_of_cons in H as [-> | H];
      [apply list_elem_of_here | apply list_elem_of_further, IH, H].
Qed.

(** Every group the search builds has [group_size] members, also when the
    group size does not divide the population. *)
Lemma sampled_groups_have_size (s : Self) (max_iterations : Z)
    (c : list (list Person)) (g : list Person) :
  (forall r l, length (shuffle r l).1 = length l) ->
  0 < group_size s ->
  num_groups s = Z.of_nat (length (people s)) / group_size s ->
  c ∈ sampled shuffle s max_iterations -> g ∈ c ->
  Z.of_nat (length g) = group_size s.
Proof.
  intros Hlen Hk Hng Hc Hg.
  apply upto_first_zero_subseteq, elem_of_draws in Hc as (r0 & ->).
  unfold blocks, zrange in Hg.
  assert (Hfit : Z.of_nat (Z.to_nat (num_groups s)) * group_size s
                 <= Z.of_nat (length (shuffle r0 (people s)).1)).
  { rewrite Hlen, Hng.
    pose proof (Z.mul_div_le (Z.of_nat (length (people s))) (group_size s) Hk).
    assert (0 <= Z.of_nat (length (people s)) / group_size s)
      by (apply Z.div_pos; lia).
    lia. }
  destruct (blocks_concat (shuffle r0 (people s)).1 (group_size s)
              (Z.to_nat (num_groups s)) Hk Hfit) as [_ Hall].
  rewrite Forall_forall in Hall. now apply Hall.
Qed.


(** *** Constructing a session *)

(** C1, for each constructor: when the group size does not divide the
    population the analyzer is not created ([ValueError]), but the session
    is: its constructor has no such check and rounds the number of groups
    down.  A group size of 0 stops both with [ZeroDivisionError]. *)
Theorem construction_on_indivisible (population : list Person) (k : Z)
    (r : rng) :
  (k = 0 ->
   Analyzer.__init__ (Z.of_nat (length population)) k
   = Raise ZeroDivisionError
   /\ __init__ population k r = Raise ZeroDivisionError)
  /\ (k <> 0 -> Z.of_nat (length population) mod k <> 0 ->
      Analyzer.__init__ (Z.of_nat (length population)) k = Raise ValueError
      /\ exists session : Self,
           __init__ population k r = Ok session
           /\ people session = population
           /\ group_size session = k
           /\ num_groups session = Z.of_nat (length population) / k
           /\ previous_meetings session = ∅).
Proof.
  split.
  - intros ->. split; reflexivity.
  - intros Hk Hmod. split.
    + now apply AnalyzerSpec.analyzer_rejects_indivisible.
    + unfold __init__. destruct (Z.eqb_spec k 0) as [| _]; [contradiction |].
      eexists. split; [reflexivity |]. repeat split.
Qed.

(** *** Rounds in sequence *)

Lemma pair_keys_app (a b : list (list Person)) :
  pair_keys (a ++ b) = pair_keys a ∪ pair_keys b.
Proof.
  unfold pair_keys. rewrite map_app, concat_app. apply list_to_set_app_L.
Qed.

Lemma pair_keys_nil : pair_keys [] = ∅.
Proof. reflexivity. Qed.

Lemma run_rounds_run (count : nat) :
  forall s : Self,
  exists (s' : Self) (added : list (list (list Person))),
    run_rounds shuffle count s = (Ok tt, s')
    /\ people s' = people s
    /\ group_size s' = group_size s
    /\ num_groups s' = num_groups s
    /\ current_round s' = current_round s + Z.of_nat count
    /\ length added = count
    /\ round_history s' = round_history s ++ added
    /\ previous_meetings s' = pair_keys (concat added) ∪ previous_meetings s.
Proof.
  induction count as [| count IH]; intros s.
  - exists s, []. cbn [run_rounds concat]. unfold ret.
    rewrite app_nil_r, Z.add_0_r, pair_keys_nil, (left_id_L ∅ (∪)).
    repeat split.
  - destruct (create_new_round_run s) as (best & Hrun & _).
    cbn [run_rounds]. rewrite bind_case, Hrun.
    match goal with
    | |- context [run_rounds shuffle count ?s1] =>
        destruct (IH s1)
          as (s' & added & Hrest & Hp & Hk & Hng & Hc & Hlen & Hh & Hl)
    end.
    exists s', (best :: added). rewrite Hrest.
    cbn [people group_size num_groups current_round round_history
         previous_meetings set_round_history set_previous_meetings
         set_random_state set_current_round] in *.
    repeat split; try assumption.
    + lia.
    + cbn [length]. now rewrite Hlen.
    + rewrite Hh, <- app_assoc. reflexivity.
    + rewrite Hl. cbn [concat]. rewrite pair_keys_app. set_solver.
Qed.

(** X6: from a fresh session, any number of rounds run without an error
    and keep the books consistent: the round counter is the length of the
    history, and the ledger holds exactly the pairs of the groups in the
    history. *)
Theorem rounds_keep_history_and_ledger (population : list Person) (k : Z)
    (r : rng) (s0 : Self) (count : nat) :
  __init__ population k r = Ok s0 ->
  (run_rounds shuffle count s0).1 = Ok tt
  /\ current_round (run_rounds shuffle count s0).2 = Z.of_nat count
  /\ length (round_history (run_rounds shuffle count s0).2) = count
  /\ previous_meetings (run_rounds shuffle count s0).2
     = pair_keys (concat (round_history (run_rounds shuffle count s0).2))
  /\ people (run_rounds shuffle count s0).2 = population
  /\ group_size (run_rounds shuffle count s0).2 = k.
Proof.
  intros Hinit. unfold __init__ in Hinit.
  destruct (k =? 0); [discriminate |]. injection Hinit as <-.
  match goal with
  | |- context [run_rounds shuffle count ?s] =>
      destruct (run_rounds_run count s)
        as (s' & added & Hrun & Hp & Hk & _ & Hc & Hlen & Hh & Hl)
  end.
  rewrite Hrun. cbn [fst snd]. rewrite Hc, Hh, Hl, Hp, Hk.
  cbn [current_round round_history previous_meetings people group_size app].
  rewrite (right_id_L ∅ (∪)). repeat split; try lia; exact Hlen.
Qed.

(** X7: [save_history] after [count] rounds of a fresh session exports
    [count] rounds, numbered from 1 in the order they were played, each with
    the nicknames of its groups; the last number is the round counter. *)
Theorem export_lists_rounds_in_order (population : list Person) (k : Z)
    (r : rng) (s0 : Self) (count : nat) :
  __init__ population k r = Ok s0 ->
  exists data,
    save_history (run_rounds shuffle count s0).2
    = (Ok data, (run_rounds shuffle count s0).2)
    /\ hd_total_people data = Z.of_nat (length population)
    /\ hd_group_size data = k
    /\ length (hd_rounds data) = count
    /\ (forall i rd, hd_rounds data !! i = Some rd ->
          rd_round rd = Z.of_nat i + 1
          /\ rd_round rd <= current_round (run_rounds shuffle count s0).2
          /\ exists groups,
               round_history (run_rounds shuffle count s0).2 !! i
               = Some groups
               /\ rd_groups rd = map (map nickname) groups).
Proof.
  intros Hinit. unfold __init__ in Hinit.
  destruct (k =? 0); [discriminate |]. injection Hinit as <-.
  match goal with
  | |- context [run_rounds shuffle count ?s] =>
      destruct (run_rounds_run count s)
        as (s' & added & Hrun & Hp & Hk & _ & Hc & Hlen & Hh & _)
  end.
  rewrite Hrun. cbn [snd]. eexists. split; [reflexivity |].
  cbn [hd_total_people hd_group_size hd_rounds].
  rewrite Hp, Hk, Hc, Hh.
  cbn [people group_size round_history current_round app].
  split; [reflexivity |]. split; [reflexivity |].
  split; [now rewrite length_imap |].
  intros i rd Hrd. rewrite list_lookup_imap in Hrd.
  destruct (added !! i) as [groups |] eqn:Hi; [| discriminate].
  cbn in Hrd. inversion Hrd; subst rd. cbn [rd_round rd_groups].
  apply lookup_lt_Some in Hi as Hlt.
  split; [reflexivity |]. split; [lia |]. now exists groups.
Qed.

(** *** Edge cases of the search *)

Lemma blocks_no_groups (l : list Person) (k ng : Z) :
  ng <= 0 -> blocks l k ng = [].
Proof.
  intros Hng. unfold blocks, zrange.
  now replace (Z.to_nat ng) with 0%nat by lia.
Qed.

Lemma sampled_first (s : Self) (count : nat) :
  cost_in s (blocks (shuffle (random_state s) (people s)).1
               (group_size s) (num_groups s)) = 0 ->
  upto_first_zero (cost_in s)
    (draws shuffle (people s) (group_size s) (num_groups s) (S count)
       (random_state s))
  = [blocks (shuffle (random_state s) (people s)).1
       (group_size s) (num_groups s)].
Proof.
  intros Hz. cbn [draws].
  destruct (shuffle (random_state s) (people s)) as [sh r'].
  cbn [fst] in Hz. cbn [upto_first_zero]. now rewrite Hz.
Qed.

(** X8: a session with no room for a single group ([num_groups <= 0], as
    with fewer people than the group size) still plays rounds: each one
    commits the empty partition after one shuffle, records it in the history
    and leaves the ledger as it is. *)
Theorem no_groups_commits_nothing (s : Self) :
  num_groups s <= 0 ->
  exists s' : Self,
    create_new_round shuffle s = (Ok (Some []), s')
    /\ previous_meetings s' = previous_meetings s
    /\ round_history s' = round_history s ++ [[]]
    /\ current_round s' = current_round s + 1
    /\ random_state s' = (shuffle (random_state s) (people s)).2.
Proof.
  intros Hng.
  assert (Hs : sampled shuffle s 1000 = [[]]).
  { unfold sampled, candidates. change (Z.to_nat 1000) with (S 999).
    rewrite sampled_first; rewrite blocks_no_groups by exact Hng;
      reflexivity. }
  destruct (create_new_round_run s) as (best & Hrun & Hin & _).
  rewrite Hs in Hin, Hrun. apply list_elem_of_singleton in Hin. subst best.
  eexists. split; [exact Hrun |].
  cbn [previous_meetings round_history current_round random_state
       set_round_history set_previous_meetings set_random_state
       set_current_round length random_after].
  rewrite pair_keys_nil, (left_id_L ∅ (∪)). repeat split.
Qed.

Lemma male_count_app (a b : list Person) :
  male_count (a ++ b) = male_count a + male_count b.
Proof. unfold male_count. rewrite filter_app, length_app. lia. Qed.

Lemma male_count_perm (a b : list Person) :
  a ≡ₚ b -> male_count a = male_count b.
Proof. intros H. unfold male_count. now rewrite H. Qed.

Lemma male_count_balanced (k : Z) (c : list (list Person)) :
  Forall (fun g => male_count g = k / 2) c ->
  male_count (concat c) = Z.of_nat (length c) * (k / 2).
Proof.
  induction 1 as [| g c Hg _ IH]; [reflexivity |].
  cbn [concat length]. rewrite male_count_app, Hg, IH. lia.
Qed.

(** A partition of cost 0 takes exactly [k // 2] members with the male
    label for each of its groups. *)
Lemma zero_cost_needs_balance (s : Self) (c : list (list Person)) :
  cost_in s c = 0 ->
  male_count (concat c) = Z.of_nat (length c) * (group_size s / 2).
Proof.
  intros Hz. apply male_count_balanced, Forall_forall. intros g Hg.
  unfold cost_in, cost in Hz. rewrite zsum_zero in Hz.
  2: { apply Forall_forall. intros x Hx.
       apply list_elem_of_fmap in Hx as (g' & -> & _).
       pose proof (repeat_count_nonneg (previous_meetings s) g').
       pose proof (imbalance_nonneg (group_size s) g'). lia. }
  rewrite Forall_forall in Hz.
  assert (H0 : repeat_count (previous_meetings s) g
               + imbalance (group_size s) g * 2 = 0).
  { apply Hz, list_elem_of_fmap. now exists g. }
  pose proof (repeat_count_nonneg (previous_meetings s) g).
  pose proof (imbalance_nonneg (group_size s) g).
  apply imbalance_zero. lia.
Qed.

Lemma upto_first_zero_all (f : list (list Person) -> Z)
    (cs : list (list (list Person))) :
  Forall (fun c => f c <> 0) cs -> upto_first_zero f cs = cs.
Proof.
  induction 1 as [| c cs Hc _ IH]; [reflexivity |].
  cbn [upto_first_zero]. destruct (Z.eqb_spec (f c) 0); [contradiction |].
  now rewrite IH.
Qed.

Lemma unbalanced_search_run (s : Self)
    (max_iterations : Z) :
  (forall r l, (shuffle r l).1 ≡ₚ l) ->
  0 < group_size s ->
  num_groups s = Z.of_nat (length (people s)) / group_size s ->
  Z.of_nat (length (people s)) mod group_size s = 0 ->
  male_count (people s) <> num_groups s * (group_size s / 2) ->
  1 <= max_iterations ->
  exists best,
    generate_groups_genetic shuffle max_iterations s
    = (Ok (Some best),
       set_random_state
         (random_after shuffle (people s) (Z.to_nat max_iterations)
            (random_state s)) s)
    /\ sampled shuffle s max_iterations = candidates shuffle s max_iterations
    /\ 0 < cost_in s best.
Proof.
  intros Hperm Hk Hng Hmod Hunbalanced HI.
  assert (Hnz : forall c, c ∈ candidates shuffle s max_iterations ->
                          cost_in s c <> 0).
  { intros c Hc Hz. apply elem_of_draws in Hc as (r0 & ->).
    destruct (blocks_valid _ _ _ _ (Hperm r0 (people s)) Hk Hng Hmod)
      as (Hcover & _ & Hcount).
    apply zero_cost_needs_balance in Hz.
    rewrite (male_count_perm _ _ Hcover) in Hz. apply Hunbalanced.
    rewrite Hz. f_equal.
    pose proof (Z.div_mod (Z.of_nat (length (people s))) (group_size s)
                  ltac:(lia)).
    nia. }
  assert (Hall : sampled shuffle s max_iterations
                 = candidates shuffle s max_iterations).
  { apply upto_first_zero_all, Forall_forall. exact Hnz. }
  destruct (generate_groups_genetic_best max_iterations s HI)
    as (best & Hrun & Hin & _).
  exists best. rewrite Hrun, Hall. unfold candidates at 1.
  rewrite length_draws. split; [reflexivity |]. split; [reflexivity |].
  rewrite Hall in Hin. specialize (Hnz best Hin).
  pose proof (cost_nonneg (previous_meetings s) (group_size s) best).
  unfold cost_in in *. lia.
Qed.

(** X9: a perfect round needs a balanced population.  When the number of
    people with the male label is not [num_groups * (k // 2)], no candidate
    has cost 0: the search uses its whole budget and returns a partition of
    positive cost. *)
Theorem unbalanced_population_exhausts_budget (s : Self)
    (max_iterations : Z) :
  (forall r l, (shuffle r l).1 ≡ₚ l) ->
  0 < group_size s ->
  num_groups s = Z.of_nat (length (people s)) / group_size s ->
  Z.of_nat (length (people s)) mod group_size s = 0 ->
  male_count (people s) <> num_groups s * (group_size s / 2) ->
  1 <= max_iterations ->
  exists best,
    generate_groups_genetic shuffle max_iterations s
    = (Ok (Some best),
       set_random_state
         (random_after shuffle (people s) (Z.to_nat max_iterations)
            (random_state s)) s)
    /\ sampled shuffle s max_iterations = candidates shuffle s max_iterations
    /\ 0 < cost_in s best.
Proof.
  intros Hperm Hk Hng Hmod Hunbalanced HI.
  now apply unbalanced_search_run.
Qed.

(** *** Statistics *)

(** X10: [show_statistics] needs two people: with fewer the number of
    possible pairs is 0 and the progress ratio divides by it.  With two or
    more it succeeds for group sizes from 2 with at least one group, and
    with a group size of 1 it fails once a round was played, as the round
    estimate divides by the pairs of a round, of which there are none. *)
Theorem statistics_outcome (s : Self) :
  (Z.of_nat (length (people s)) < 2 ->
   show_statistics s = (Raise ZeroDivisionError, s))
  /\ (2 <= Z.of_nat (length (people s)) ->
      Z.of_nat (size (previous_meetings s)) < 2 ^ 53 ->
      (2 <= group_size s -> 1 <= num_groups s ->
       show_statistics s = (Ok tt, s))
      /\ (group_size s = 1 -> 0 < current_round s ->
          show_statistics s = (Raise ZeroDivisionError, s))).
Proof.
  split.
  - intros Hfew. unfold show_statistics, bind, gets, lift.
    assert (Hp : Z.of_nat (length (people s))
                 * (Z.of_nat (length (people s)) - 1) / 2 = 0).
    { assert (Z.of_nat (length (people s)) = 0
              \/ Z.of_nat (length (people s)) = 1) as [-> | ->] by lia;
        reflexivity. }
    rewrite Hp. unfold PyFloat.int_true_divide. reflexivity.
  - intros Hmany Hsize.
    assert (Hp : 1 <= Z.of_nat (length (people s))
                      * (Z.of_nat (length (people s)) - 1) / 2)
      by (apply Z.div_le_lower_bound; nia).
    destruct (PyFloatFacts.int_true_divide_small
                (Z.of_nat (size (previous_meetings s)))
                (Z.of_nat (length (people s))
                 * (Z.of_nat (length (people s)) - 1) / 2)
                (conj (Nat2Z.is_nonneg _) Hsize) ltac:(lia)) as (f & Hf & _).
    split.
    + intros Hk Hng. unfold show_statistics, bind, gets, lift, ret, raise.
      cbv beta. rewrite Hf. cbv beta iota zeta.
      destruct (0 <? current_round s); [| reflexivity].
      cbv beta iota zeta.
      pose proof (AnalyzerSpec.pairs_per_group_pos (group_size s) Hk).
      destruct (Z.eqb_spec
                  (num_groups s * (group_size s * (group_size s - 1) / 2)) 0);
        [nia | reflexivity].
    + intros Hk Hround. unfold show_statistics, bind, gets, lift, ret, raise.
      cbv beta. rewrite Hf. cbv beta iota zeta.
      replace (0 <? current_round s) with true
        by (symmetry; apply Z.ltb_lt; exact Hround).
      cbv beta iota zeta. rewrite Hk.
      change (1 * (1 - 1) / 2) with 0. rewrite Z.mul_0_r. reflexivity.
Qed.

(** *** How much a round adds *)

Lemma length_pairs_of {A : Type} (g : list A) :
  Z.of_nat (length (pairs_of g))
  = Z.of_nat (length g) * (Z.of_nat (length g) - 1) / 2.
Proof.
  induction g as [| p g IH]; [reflexivity |].
  cbn [pairs_of]. rewrite length_app, length_map. cbn [length].
  rewrite Nat2Z.inj_add, IH.
  pose proof (AnalyzerSpec.consecutive_product_even (Z.of_nat (length g))).
  pose proof (AnalyzerSpec.consecutive_product_even (Z.of_nat (S (length g)))).
  lia.
Qed.

Lemma size_list_to_set_le (l : list (string * string)) :
  (size (list_to_set l : gset (string * string)) <= length l)%nat.
Proof.
  induction l as [| x l IH]; cbn [list_to_set length].
  - now rewrite size_empty.
  - rewrite size_union_alt, size_singleton.
    assert (size (list_to_set l ∖ {[x]} : gset (string * string))
            <= size (list_to_set l : gset (string * string)))%nat
      by (apply subseteq_size; set_solver).
    lia.
Qed.

Lemma size_union_le (X Y : gset (string * string)) :
  (size (X ∪ Y) <= size X + size Y)%nat.
Proof.
  rewrite size_union_alt.
  assert (size (Y ∖ X) <= size Y)%nat by (apply subseteq_size; set_solver).
  lia.
Qed.

Lemma size_pair_keys_le (k : Z) (groups : list (list Person)) :
  Forall (fun g => Z.of_nat (length g) = k) groups ->
  Z.of_nat (size (pair_keys groups))
  <= Z.of_nat (length groups) * (k * (k - 1) / 2).
Proof.
  induction 1 as [| g groups Hg _ IH].
  - rewrite pair_keys_nil, size_empty. cbn. lia.
  - rewrite pair_keys_cons. cbn [length].
    pose proof (size_union_le (list_to_set (group_keys g)) (pair_keys groups)).
    pose proof (size_list_to_set_le (group_keys g)) as Hle.
    unfold group_keys in Hle at 2. rewrite length_map in Hle.
    pose proof (length_pairs_of g) as Hlen. rewrite Hg in Hlen. lia.
Qed.

Lemma length_sampled_element (s : Self) (max_iterations : Z)
    (c : list (list Person)) :
  c ∈ sampled shuffle s max_iterations ->
  length c = Z.to_nat (num_groups s).
Proof.
  intros Hc. apply upto_first_zero_subseteq, elem_of_draws in Hc as (r0 & ->).
  unfold blocks, zrange. now rewrite !length_map, length_seq.
Qed.

(** X11: a round adds at most [num_groups * k (k - 1) / 2] pairs to the
    ledger, the number the analyzer calls [pairs_per_round]. *)
Theorem round_adds_at_most_pairs_per_round (s : Self) :
  (forall r l, length (shuffle r l).1 = length l) ->
  0 < group_size s ->
  num_groups s = Z.of_nat (length (people s)) / group_size s ->
  Z.of_nat (size (previous_meetings (create_new_round shuffle s).2))
  <= Z.of_nat (size (previous_meetings s))
     + num_groups s * (group_size s * (group_size s - 1) / 2).
Proof.
  intros Hlen Hk Hng.
  destruct (create_new_round_run s) as (best & Hrun & Hin & _).
  rewrite Hrun. cbn [snd previous_meetings set_round_history
                     set_previous_meetings].
  pose proof (size_union_le (pair_keys best) (previous_meetings s)).
  assert (Hsize : Forall (fun g => Z.of_nat (length g) = group_size s) best).
  { apply Forall_forall. intros g Hg.
    now apply (sampled_groups_have_size s 1000 best g). }
  pose proof (size_pair_keys_le (group_size s) best Hsize) as Hkeys.
  rewrite (length_sampled_element s 1000 best Hin) in Hkeys.
  assert (H0 : 0 <= num_groups s) by (rewrite Hng; apply Z.div_pos; lia).
  rewrite (Z2Nat.id _ H0) in Hkeys. lia.
Qed.

(** *** The ledger stays within the pairs of the population *)

Lemma group_keys_cons (p : Person) (g : list Person) :
  group_keys (p :: g)
  = map (fun q => ordered_pair (nickname p) (nickname q)) g ++ group_keys g.
Proof.
  unfold group_keys. cbn [pairs_of]. rewrite map_app, map_map. reflexivity.
Qed.

Lemma group_keys_perm (l l' : list Person) :
  l ≡ₚ l' ->
  (list_to_set (group_keys l) : gset (string * string))
  = list_to_set (group_keys l').
Proof.
  induction 1 as [| x l l' Hperm IH | x y l | l l' l'' _ IH1 _ IH2].
  - reflexivity.
  - rewrite !group_keys_cons, !list_to_set_app_L, IH.
    f_equal. apply list_to_set_perm_L. now rewrite Hperm.
  - rewrite !group_keys_cons. cbn [map].
    rewrite (ordered_pair_comm (nickname y) (nickname x)).
    apply set_eq. intros key.
    rewrite !elem_of_list_to_set.
    repeat (rewrite elem_of_app || rewrite elem_of_cons). tauto.
  - now rewrite IH1.
Qed.

Lemma group_keys_sublist (l1 l2 : list Person) :
  l1 `sublist_of` l2 ->
  (list_to_set (group_keys l1) : gset (string * string))
  ⊆ list_to_set (group_keys l2).
Proof.
  induction 1 as [| x l1 l2 Hsub IH | x l1 l2 _ IH].
  - reflexivity.
  - rewrite !group_keys_cons, !list_to_set_app_L.
    apply union_mono; [| exact IH].
    intros key. rewrite !elem_of_list_to_set, !list_elem_of_fmap.
    intros (q & -> & Hq). exists q. split; [reflexivity |].
    now apply (sublist_subseteq _ _ Hsub).
  - rewrite group_keys_cons, list_to_set_app_L. set_solver.
Qed.

Lemma py_slice_sublist {A : Type} (l : list A) (start stop : Z) :
  py_slice l start stop `sublist_of` l.
Proof.
  unfold py_slice. etransitivity; [apply sublist_take | apply sublist_drop].
Qed.

Lemma pair_keys_subseteq (groups : list (list Person))
    (X : gset (string * string)) :
  (forall g, g ∈ groups -> list_to_set (group_keys g) ⊆ X) ->
  pair_keys groups ⊆ X.
Proof.
  induction groups as [| g groups IH]; intros H.
  - rewrite pair_keys_nil. set_solver.
  - rewrite pair_keys_cons. apply union_least.
    + apply H, list_elem_of_here.
    + apply IH. intros g' Hg'. now apply H, list_elem_of_further.
Qed.

Lemma blocks_keys_within (sh population : list Person) (k ng : Z) :
  sh ≡ₚ population ->
  pair_keys (blocks sh k ng) ⊆ list_to_set (group_keys population).
Proof.
  intros Hperm. apply pair_keys_subseteq. intros g Hg.
  unfold blocks in Hg. apply list_elem_of_fmap in Hg as (i & -> & _).
  rewrite <- (group_keys_perm _ _ Hperm).
  apply group_keys_sublist, py_slice_sublist.
Qed.

Lemma run_rounds_ledger_within (count : nat) :
  (forall r l, (shuffle r l).1 ≡ₚ l) ->
  forall s : Self,
    previous_meetings s ⊆ list_to_set (group_keys (people s)) ->
    previous_meetings (run_rounds shuffle count s).2
    ⊆ list_to_set (group_keys (people s)).
Proof.
  intros Hperm. induction count as [| count IH]; intros s Hs; [exact Hs |].
  destruct (create_new_round_run s) as (best & Hrun & Hin & _).
  cbn [run_rounds]. rewrite bind_case, Hrun.
  match goal with
  | |- context [run_rounds shuffle count ?s1] => specialize (IH s1)
  end.
  cbn [people previous_meetings set_round_history set_previous_meetings
       set_random_state set_current_round] in IH.
  apply IH. apply union_least; [| exact Hs].
  apply upto_first_zero_subseteq, elem_of_draws in Hin as (r0 & ->).
  apply blocks_keys_within, Hperm.
Qed.

(** X12: however many rounds a fresh session plays, its ledger holds at
    most [N (N - 1) / 2] pairs, so that the progress [show_statistics]
    reports never exceeds 100 percent. *)
Theorem ledger_within_all_pairs (population : list Person) (k : Z) (r : rng)
    (s0 : Self) (count : nat) :
  (forall r l, (shuffle r l).1 ≡ₚ l) ->
  __init__ population k r = Ok s0 ->
  Z.of_nat (size (previous_meetings (run_rounds shuffle count s0).2))
  <= Z.of_nat (length population) * (Z.of_nat (length population) - 1) / 2.
Proof.
  intros Hperm Hinit. unfold __init__ in Hinit.
  destruct (k =? 0); [discriminate |]. injection Hinit as <-.
  rewrite <- length_pairs_of.
  match goal with
  | |- context [run_rounds shuffle count ?s] =>
      pose proof (run_rounds_ledger_within count Hperm s) as Hwithin
  end.
  cbn [people previous_meetings] in Hwithin.
  specialize (Hwithin ltac:(set_solver)).
  apply subseteq_size in Hwithin.
  pose proof (size_list_to_set_le (group_keys population)) as Hle.
  unfold group_keys in Hle at 2. rewrite length_map in Hle. lia.
Qed.

(** *** The new meetings [print_groups] reports *)

Lemma ordered_pair_eq (a b c d : string) :
  ordered_pair a b = ordered_pair c d -> (a = c /\ b = d) \/ (a = d /\ b = c).
Proof.
  unfold ordered_pair.
  destruct (String.ltb a b), (String.ltb c d); intros H; inversion H; tauto.
Qed.

Lemma ordered_pair_inj_r (a : string) : Inj (=) (=) (ordered_pair a).
Proof.
  intros b b' H. apply ordered_pair_eq in H as [[_ H] | [H1 H2]]; congruence.
Qed.

Lemma elem_of_group_keys (g : list Person) (key : string * string) :
  key ∈ group_keys g ->
  exists a b, a ∈ map nickname g /\ b ∈ map nickname g
              /\ key = ordered_pair a b.
Proof.
  unfold group_keys. intros H.
  apply list_elem_of_fmap in H as ([p q] & -> & Hpq).
  apply elem_of_pairs_of in Hpq as (i & j & _ & Hi & Hj).
  exists (nickname p), (nickname q). repeat split.
  - apply list_elem_of_fmap. exists p. split; [reflexivity |].
    apply list_elem_of_lookup. now exists i.
  - apply list_elem_of_fmap. exists q. split; [reflexivity |].
    apply list_elem_of_lookup. now exists j.
Qed.

Lemma group_keys_NoDup (g : list Person) :
  NoDup (map nickname g) -> NoDup (group_keys g).
Proof.
  induction g as [| p g IH]; intros Hnd; [constructor |].
  cbn [map] in Hnd. apply NoDup_cons in Hnd as [Hp Hnd].
  rewrite group_keys_cons. apply NoDup_app. split; [| split].
  - rewrite <- (map_map nickname (ordered_pair (nickname p))).
    apply (@NoDup_fmap_2 _ _ _ (ordered_pair_inj_r (nickname p))), Hnd.
  - intros key Hkey1 Hkey2.
    apply list_elem_of_fmap in Hkey1 as (q & -> & Hq).
    apply elem_of_group_keys in Hkey2 as (a & b & Ha & Hb & Heq).
    apply ordered_pair_eq in Heq as [[Heq _] | [Heq _]]; congruence.
  - now apply IH.
Qed.

Lemma pair_key_list_NoDup (groups : list (list Person)) :
  NoDup (map nickname (concat groups)) ->
  NoDup (concat (map group_keys groups)).
Proof.
  induction groups as [| g groups IH]; intros Hnd; [constructor |].
  cbn [concat map] in *. rewrite map_app in Hnd.
  apply NoDup_app in Hnd as (Hg & Hdisj & Hrest).
  apply NoDup_app. split; [| split].
  - now apply group_keys_NoDup.
  - intros key Hkey1 Hkey2.
    apply elem_of_group_keys in Hkey1 as (a & b & Ha & Hb & ->).
    apply elem_of_concat in Hkey2 as (keys & Hkey2 & Hkeys).
    apply list_elem_of_fmap in Hkeys as (g' & -> & Hg').
    apply elem_of_group_keys in Hkey2 as (c & d & Hc & Hd & Heq).
    assert (Hin : forall x, x ∈ map nickname g' ->
                            x ∈ map nickname (concat groups)).
    { intros x Hx. apply list_elem_of_fmap in Hx as (q & -> & Hq).
      apply list_elem_of_fmap. exists q. split; [reflexivity |].
      apply elem_of_concat. now exists g'. }
    apply ordered_pair_eq in Heq as [[Heq _] | [Heq _]]; subst a.
    + exact (Hdisj c Ha (Hin c Hc)).
    + exact (Hdisj d Ha (Hin d Hd)).
  - now apply IH.
Qed.

(** Adding a duplicate-free list of keys: the ledger grows by the keys
    that were not in it. *)
Lemma size_add_keys (keys : list (string * string))
    (L : gset (string * string)) :
  NoDup keys ->
  Z.of_nat (size (list_to_set keys ∪ L))
  = Z.of_nat (size L) + Z.of_nat (length keys)
    - zsum (map (fun key => if bool_decide (key ∈ L) then 1 else 0) keys).
Proof.
  induction 1 as [| x keys Hx Hnd IH].
  - cbn [list_to_set length map zsum foldr].
    rewrite (left_id_L ∅ (∪)). lia.
  - cbn [list_to_set length map zsum foldr]. unfold zsum in IH.
    rewrite <- (assoc_L (∪)).
    destruct (decide (x ∈ L)) as [Hin | Hout].
    + rewrite bool_decide_eq_true_2 by exact Hin.
      replace ({[x]} ∪ (list_to_set keys ∪ L)) with (list_to_set keys ∪ L)
        by set_solver.
      lia.
    + rewrite bool_decide_eq_false_2 by exact Hout.
      rewrite size_union by set_solver. rewrite size_singleton. lia.
Qed.

Lemma repeats_as_keys (L : gset (string * string))
    (groups : list (list Person)) :
  zsum (map (repeat_count L) groups)
  = zsum (map (fun key => if bool_decide (key ∈ L) then 1 else 0)
            (concat (map group_keys groups))).
Proof.
  assert (Happ : forall a b : list Z, zsum (a ++ b) = zsum a + zsum b).
  { intros a b. induction a as [| x a IH]; cbn [app zsum foldr] in *;
      [reflexivity | unfold zsum in *; lia]. }
  induction groups as [| g groups IH]; [reflexivity |].
  cbn [map concat]. rewrite map_app, Happ, <- IH.
  change (zsum (repeat_count L g :: map (repeat_count L) groups))
    with (repeat_count L g + zsum (map (repeat_count L) groups)).
  f_equal.
  unfold repeat_count, group_keys. rewrite map_map. f_equal.
  apply map_ext. intros [p q]. unfold met. cbn [fst snd].
  now rewrite sorted_pair_ordered.
Qed.

Lemma length_pair_key_list (k : Z) (groups : list (list Person)) :
  Forall (fun g => Z.of_nat (length g) = k) groups ->
  Z.of_nat (length (concat (map group_keys groups)))
  = Z.of_nat (length groups) * (k * (k - 1) / 2).
Proof.
  induction 1 as [| g groups Hg _ IH]; [reflexivity |].
  cbn [map concat length]. rewrite length_app, Nat2Z.inj_add, IH.
  unfold group_keys. rewrite length_map, length_pairs_of, Hg. lia.
Qed.

Lemma print_groups_totals_run (groups : list (list Person)) (s : Self) :
  print_groups_totals groups s
  = (Ok (zsum (map (repeat_count (previous_meetings s)) groups),
         Z.of_nat (length groups)
         * (group_size s * (group_size s - 1) / 2)
         - zsum (map (repeat_count (previous_meetings s)) groups)), s).
Proof.
  unfold print_groups_totals. rewrite bind_case, print_groups_from.
  reflexivity.
Qed.

(** X13: when the nicknames are all different and the groups have [k]
    members each, the number [print_groups] reports as new meetings is the
    number of pairs that committing the groups adds to the ledger. *)
Theorem reported_new_meetings_are_added (groups : list (list Person))
    (s : Self) :
  NoDup (map nickname (concat groups)) ->
  Forall (fun g => Z.of_nat (length g) = group_size s) groups ->
  exists previous new,
    print_groups_totals groups s = (Ok (previous, new), s)
    /\ 0 <= previous /\ 0 <= new
    /\ Z.of_nat (size (previous_meetings (add_meetings groups s).2))
       = Z.of_nat (size (previous_meetings s)) + new.
Proof.
  intros Hnd Hsize. eexists _, _.
  split; [apply print_groups_totals_run |].
  rewrite add_meetings_run. cbn [snd previous_meetings set_previous_meetings].
  unfold pair_keys.
  pose proof (size_add_keys _ (previous_meetings s)
                (pair_key_list_NoDup groups Hnd)) as Hadd.
  rewrite <- repeats_as_keys, (length_pair_key_list _ _ Hsize) in Hadd.
  assert (Hprev : 0 <= zsum (map (repeat_count (previous_meetings s)) groups)).
  { apply zsum_nonneg, Forall_forall. intros x Hx.
    apply list_elem_of_fmap in Hx as (g & -> & _).
    apply repeat_count_nonneg. }
  assert (Hgrow : (size (previous_meetings s)
                   <= size (list_to_set (concat (map group_keys groups))
                            ∪ previous_meetings s))%nat)
    by (apply subseteq_size; set_solver).
  repeat split; lia.
Qed.

(** *** The command loop *)

Lemma handle_command_go (command : string) (s : Self) :
  command ∈ ["go"; "g"] ->
  handle_command shuffle command s = (Ok true, (create_new_round shuffle s).2).
Proof.
  intros Hgo. unfold handle_command.
  rewrite bool_decide_eq_true_2 by exact Hgo.
  destruct (create_new_round_run s) as (best & Hrun & _).
  rewrite bind_case, Hrun. cbn [snd]. rewrite bind_case.
  match goal with
  | |- context [show_statistics ?s1] =>
      pose proof (show_statistics_state s1) as Hstat;
      destruct (show_statistics s1) as [[[] | e] s2]
  end; cbn [snd] in Hstat; subst; reflexivity.
Qed.

Lemma handle_command_other (command : string) (s : Self) :
  command ∉ ["go"; "g"] ->
  handle_command shuffle command s
  = (Ok (negb (bool_decide (command ∈ ["quit"; "q"]))), s).
Proof.
  intros Hgo. unfold handle_command.
  rewrite bool_decide_eq_false_2 by exact Hgo.
  destruct (bool_decide (command ∈ ["stat"; "s"])) eqn:Hstat.
  { rewrite bind_case.
    pose proof (show_statistics_state s) as Hs.
    apply bool_decide_eq_true_1 in Hstat.
    rewrite bool_decide_eq_false_2
      by (intros Hq; set_unfold; destruct Hstat as [-> | [-> | []]];
          destruct Hq as [Hq | [Hq | []]]; discriminate).
    destruct (show_statistics s) as [[[] | e] s2]; cbn [snd] in Hs; subst;
      reflexivity. }
  destruct (bool_decide (command = "save")) eqn:Hsave.
  { apply bool_decide_eq_true_1 in Hsave. subst command.
    rewrite bool_decide_eq_false_2
      by (intros Hq; set_unfold; destruct Hq as [Hq | [Hq | []]];
          discriminate).
    reflexivity. }
  destruct (bool_decide (command ∈ ["quit"; "q"])); reflexivity.
Qed.

(** X17: no command ends the loop of [main] with an error, and only [go]
    (or [g]) changes the session, by one round, even when the statistics
    that follow fail; the loop is left by [quit] (or [q]) alone. *)
Theorem handle_command_effect (command : string) (s : Self) :
  exists again,
    (handle_command shuffle command s).1 = Ok again
    /\ (again = false <-> command = "quit" \/ command = "q")
    /\ (command = "go" \/ command = "g" ->
        (handle_command shuffle command s).2 = (create_new_round shuffle s).2)
    /\ (command <> "go" -> command <> "g" ->
        (handle_command shuffle command s).2 = s).
Proof.
  destruct (decide (command ∈ ["go"; "g"])) as [Hgo | Hother].
  - rewrite (handle_command_go command s Hgo). exists true. cbn [fst snd].
    split; [reflexivity |]. split; [| split].
    + split; [discriminate |]. set_unfold.
      intros [-> | ->]; destruct Hgo as [Hgo | [Hgo | []]]; discriminate.
    + reflexivity.
    + intros H1 H2. set_unfold. destruct Hgo as [Hgo | [Hgo | []]];
        contradiction.
  - rewrite (handle_command_other command s Hother). eexists. cbn [fst snd].
    split; [reflexivity |]. split; [| split].
    + rewrite negb_false_iff, bool_decide_eq_true. set_unfold. tauto.
    + intros Hgo. exfalso. apply Hother. set_unfold. tauto.
    + reflexivity.
Qed.

Lemma create_new_round_counter (s : Self) :
  current_round (create_new_round shuffle s).2 = current_round s + 1
  /\ previous_meetings s ⊆ previous_meetings (create_new_round shuffle s).2.
Proof.
  destruct (create_new_round_run s) as (best & Hrun & _). rewrite Hrun.
  cbn [snd current_round previous_meetings set_round_history
       set_previous_meetings set_random_state set_current_round].
  split; [reflexivity | set_solver].
Qed.

(** X18: a run of commands without [quit] counts one round for each
    [go] or [g], whatever else is typed, and never shrinks the ledger; a
    [quit] ends the loop and what is typed after it has no effect. *)
Theorem run_commands_counts_rounds (commands after : list string)
    (s : Self) :
  Forall (fun c => c <> "quit" /\ c <> "q") commands ->
  (run_commands shuffle commands s).1 = Ok false
  /\ current_round (run_commands shuffle commands s).2
     = current_round s
       + Z.of_nat (length (filter (fun c => c ∈ ["go"; "g"]) commands))
  /\ previous_meetings s
     ⊆ previous_meetings (run_commands shuffle commands s).2
  /\ run_commands shuffle (commands ++ "quit" :: after) s
     = (Ok true, (run_commands shuffle commands s).2).
Proof.
  intros Hnoquit. revert s.
  induction Hnoquit as [| c commands [Hc1 Hc2] _ IH]; intros s.
  - cbn [run_commands app filter length]. rewrite bind_case.
    rewrite handle_command_other
      by (set_unfold; intros [H | [H | []]]; discriminate).
    cbn. unfold ret. repeat split; [lia | set_solver].
  - cbn [run_commands app]. rewrite !bind_case, filter_cons.
    assert (Hq : c ∉ ["quit"; "q"]) by (set_unfold; tauto).
    destruct (decide (c ∈ ["go"; "g"])) as [Hgo | Hother].
    + rewrite (handle_command_go c s Hgo).
      destruct (IH (create_new_round shuffle s).2) as (H1 & H2 & H3 & H4).
      destruct (create_new_round_counter s) as [Hcount Hgrow].
      rewrite H1, H2, H4, Hcount. cbn [length].
      repeat split; [lia | set_solver].
    + rewrite (handle_command_other c s Hother).
      rewrite bool_decide_eq_false_2 by exact Hq. cbn [negb].
      destruct (IH s) as (H1 & H2 & H3 & H4).
      rewrite H1, H2, H4. repeat split; [exact H3].
Qed.

(** *** More on rounds and budgets *)

Lemma repeat_count_empty (g : list Person) : repeat_count ∅ g = 0.
Proof.
  apply repeat_count_zero. intros i j p q _ _ _. apply not_elem_of_empty.
Qed.

(** X19: on an empty ledger, as in the first round, no pair counts as a
    repeat and the cost of a candidate is twice the imbalance of its
    groups. *)
Theorem first_round_cost_is_imbalance (groups : list (list Person))
    (s : Self) :
  previous_meetings s = ∅ ->
  total_score groups s
  = (Ok (2 * zsum (map (imbalance (group_size s)) groups)), s)
  /\ Forall (fun g => calculate_group_score g s = (Ok 0, s)) groups.
Proof.
  intros Hempty. split.
  - rewrite total_score_run. do 2 f_equal. unfold cost_in, cost.
    rewrite Hempty. induction groups as [| g groups IH]; [reflexivity |].
    cbn [map zsum foldr]. unfold zsum in IH. rewrite IH, repeat_count_empty.
    lia.
  - apply Forall_forall. intros g _.
    now rewrite calculate_group_score_run, Hempty, repeat_count_empty.
Qed.

Lemma run_rounds_history_valid (count : nat) :
  (forall r l, (shuffle r l).1 ≡ₚ l) ->
  forall s : Self,
    0 < group_size s ->
    num_groups s = Z.of_nat (length (people s)) / group_size s ->
    Z.of_nat (length (people s)) mod group_size s = 0 ->
    Forall (valid_partition (people s) (group_size s)) (round_history s) ->
    Forall (valid_partition (people s) (group_size s))
      (round_history (run_rounds shuffle count s).2).
Proof.
  intros Hperm. induction count as [| count IH];
    intros s Hk Hng Hmod Hvalid; [exact Hvalid |].
  destruct (create_new_round_run s) as (best & Hrun & Hin & _).
  cbn [run_rounds]. rewrite bind_case, Hrun.
  match goal with
  | |- context [run_rounds shuffle count ?s1] => specialize (IH s1)
  end.
  cbn [people group_size num_groups round_history set_round_history
       set_previous_meetings set_random_state set_current_round] in IH.
  apply IH; try assumption.
  apply Forall_app. split; [exact Hvalid |]. constructor; [| constructor].
  apply upto_first_zero_subseteq, elem_of_draws in Hin as (r0 & ->).
  now apply blocks_valid.
Qed.

(** X20: when the group size divides the population, every round in the
    history of a session is a partition of the population: its groups
    together are a rearrangement of the people, each has [k] members, and
    there are [N / k] of them. *)
Theorem history_rounds_are_partitions (population : list Person) (k : Z)
    (r : rng) (s0 : Self) (count : nat) :
  (forall r l, (shuffle r l).1 ≡ₚ l) ->
  0 < k -> Z.of_nat (length population) mod k = 0 ->
  __init__ population k r = Ok s0 ->
  Forall (valid_partition population k)
    (round_history (run_rounds shuffle count s0).2).
Proof.
  intros Hperm Hk Hmod Hinit. unfold __init__ in Hinit.
  destruct (k =? 0); [discriminate |]. injection Hinit as <-.
  match goal with
  | |- context [run_rounds shuffle count ?s] =>
      apply (run_rounds_history_valid count Hperm s)
  end; cbn [people group_size num_groups round_history];
    try assumption; try reflexivity.
  constructor.
Qed.

Lemma draws_app (population : list Person) (k ng : Z) (n m : nat) (r : rng) :
  draws shuffle population k ng (n + m) r
  = draws shuffle population k ng n r
    ++ draws shuffle population k ng m (random_after shuffle population n r).
Proof.
  revert r. induction n as [| n IH]; intros r; [reflexivity |].
  cbn [Nat.add draws random_after].
  destruct (shuffle r population) as [sh r']. cbn [snd app].
  now rewrite IH.
Qed.

Lemma upto_first_zero_app (f : list (list Person) -> Z)
    (a b : list (list (list Person))) (c : list (list Person)) :
  c ∈ upto_first_zero f a -> c ∈ upto_first_zero f (a ++ b).
Proof.
  induction a as [| x a IH]; cbn [upto_first_zero app]; [easy |].
  destruct (f x =? 0); [easy |].
  intros H. apply elem_of_cons in H as [-> | H];
    [apply list_elem_of_here | apply list_elem_of_further, IH, H].
Qed.

(** X21: a larger budget never gives a worse result: from the same random
    state, the partition found within [larger] iterations costs at most
    what the one found within [smaller] iterations costs. *)
Theorem larger_budget_never_worse (smaller larger : Z) (s : Self) :
  1 <= smaller <= larger ->
  exists found_first found_later,
    (generate_groups_genetic shuffle smaller s).1 = Ok (Some found_first)
    /\ (generate_groups_genetic shuffle larger s).1 = Ok (Some found_later)
    /\ cost_in s found_later <= cost_in s found_first.
Proof.
  intros [Hsmall Hle].
  destruct (generate_groups_genetic_best smaller s Hsmall)
    as (b1 & Hrun1 & Hin1 & _).
  destruct (generate_groups_genetic_best larger s ltac:(lia))
    as (b2 & Hrun2 & _ & Hmin2).
  exists b1, b2. rewrite Hrun1, Hrun2.
  split; [reflexivity |]. split; [reflexivity |].
  apply Hmin2. unfold sampled, candidates in *.
  replace (Z.to_nat larger)
    with (Z.to_nat smaller + (Z.to_nat larger - Z.to_nat smaller))%nat
    by lia.
  rewrite draws_app. now apply upto_first_zero_app.
Qed.

End Facts.

(** *** Mock data *)

Section MockFacts.
Context {rng : Type}.
Variable shuffle_any : forall A : Type, rng -> list A -> list A * rng.

Lemma append_people_ok (names : list string) (label : string) (count : nat) :
  forall (start : nat) (people : list Person),
    (start + count <= length names)%nat ->
    exists added,
      append_people names label (seq start count) people
      = Ok (people ++ added)
      /\ length added = count
      /\ Forall (fun p => gender p = label) added.
Proof.
  induction count as [| count IH]; intros start people Hfit.
  - exists []. cbn. rewrite app_nil_r. repeat split. constructor.
  - cbn [seq append_people].
    destruct (names !! start) as [nick |] eqn:Hnick.
    2: { apply lookup_ge_None in Hnick. lia. }
    destruct (IH (S start)
                (people ++ [{| nickname := nick; gender := label |}])
                ltac:(lia)) as (added & Hrun & Hlen & Hall).
    exists ({| nickname := nick; gender := label |} :: added).
    rewrite Hrun, <- app_assoc. repeat split.
    + cbn [length]. now rewrite Hlen.
    + constructor; [reflexivity | exact Hall].
Qed.

Lemma append_people_short (names : list string) (label : string)
    (count : nat) :
  forall (start : nat) (people : list Person),
    (start <= length names < start + count)%nat ->
    append_people names label (seq start count) people = Raise IndexError.
Proof.
  induction count as [| count IH]; intros start people Hshort; [lia |].
  cbn [seq append_people].
  destruct (names !! start) as [nick |] eqn:Hnick; [| reflexivity].
  apply lookup_lt_Some in Hnick. apply IH. lia.
Qed.

Lemma male_count_all (l : list Person) :
  Forall (fun p => gender p = male_label) l ->
  male_count l = Z.of_nat (length l).
Proof.
  induction 1 as [| p l Hp _ IH]; [reflexivity |].
  unfold male_count in *. rewrite filter_cons.
  destruct (decide (gender p = male_label)); [| contradiction].
  cbn [length]. lia.
Qed.

Lemma male_count_none (l : list Person) :
  Forall (fun p => gender p = female_label) l -> male_count l = 0.
Proof.
  induction 1 as [| p l Hp _ IH]; [reflexivity |].
  unfold male_count in *. rewrite filter_cons.
  destruct (decide (gender p = male_label)) as [Heq | _]; [| exact IH].
  rewrite Hp in Heq. discriminate.
Qed.

Lemma length_extended (stem : string) (names : list string) :
  length names = 36%nat ->
  length ((names ++ names ++ names) ++ numbered stem) = 208%nat.
Proof.
  intros H. unfold numbered.
  rewrite !length_app, length_map, length_seq, H. reflexivity.
Qed.

Lemma mock_people_facts (num_people : Z) (r : rng) :
  (forall A r l, (shuffle_any A r l).1 ≡ₚ l) ->
  0 <= num_people <= 416 ->
  exists people,
    (generate_mock_people shuffle_any num_people r).1 = Ok people
    /\ Z.of_nat (length people) = num_people
    /\ male_count people = num_people / 2
    /\ other_count people = num_people - num_people / 2
    /\ Forall (fun p => gender p = male_label \/ gender p = female_label)
         people.
Proof.
  intros Hperm Hn. unfold generate_mock_people.
  pose proof (Hperm string r
                ((male_nicknames ++ male_nicknames ++ male_nicknames)
                 ++ numbered "개발자")) as Hm.
  destruct (shuffle_any string r _) as [em r1]. cbn [fst] in Hm.
  pose proof (Hperm string r1
                ((female_nicknames ++ female_nicknames ++ female_nicknames)
                 ++ numbered "개발녀")) as Hf.
  destruct (shuffle_any string r1 _) as [ef r2]. cbn [fst] in Hf.
  apply Permutation_length in Hm, Hf.
  rewrite length_extended in Hm, Hf by reflexivity.
  assert (Hhalf : 0 <= num_people / 2 <= 208
                  /\ 0 <= num_people - num_people / 2 <= 208)
    by (Z.div_mod_to_equations; lia).
  destruct (append_people_ok em male_label (Z.to_nat (num_people / 2)) 0 []
              ltac:(lia)) as (males & Hmales & Hmlen & Hmall).
  rewrite Hmales. cbn [app].
  destruct (append_people_ok ef female_label
              (Z.to_nat (num_people - num_people / 2)) 0 males ltac:(lia))
    as (females & Hfemales & Hflen & Hfall).
  rewrite Hfemales.
  pose proof (Hperm Person r2 (males ++ females)) as Hp.
  destruct (shuffle_any Person r2 (males ++ females)) as [people r3].
  cbn [fst] in *. exists people. split; [reflexivity |].
  assert (Hmc : male_count people = num_people / 2).
  { rewrite (male_count_perm _ _ Hp), male_count_app.
    rewrite (male_count_all _ Hmall), (male_count_none _ Hfall). lia. }
  assert (Hlen : Z.of_nat (length people) = num_people)
    by (rewrite Hp, length_app; lia).
  split; [exact Hlen |]. split; [exact Hmc |].
  split; [rewrite other_count_complement; lia |].
  rewrite Hp. apply Forall_app. split.
  - eapply Forall_impl; [exact Hmall |]. intros p Hg. now left.
  - eapply Forall_impl; [exact Hfall |]. intros p Hg. now right.
Qed.

(** X14: for up to 416 people [generate_mock_people] returns that many,
    [num_people // 2] of them with the male label and all the others with
    the female one. *)
Theorem mock_people_split (num_people : Z) (r : rng) :
  (forall A r l, (shuffle_any A r l).1 ≡ₚ l) ->
  0 <= num_people <= 416 ->
  exists people,
    (generate_mock_people shuffle_any num_people r).1 = Ok people
    /\ Z.of_nat (length people) = num_people
    /\ male_count people = num_people / 2
    /\ other_count people = num_people - num_people / 2
    /\ Forall (fun p => gender p = male_label \/ gender p = female_label)
         people.
Proof.
  intros Hperm Hn. now apply mock_people_facts.
Qed.

(** X15: from 417 people on [generate_mock_people] raises [IndexError]:
    each pool of nicknames has 208 entries. *)
Theorem mock_people_pool_exhausted (num_people : Z) (r : rng) :
  (forall A r l, length (shuffle_any A r l).1 = length l) ->
  417 <= num_people ->
  (generate_mock_people shuffle_any num_people r).1 = Raise IndexError.
Proof.
  intros Hlen Hn. unfold generate_mock_people.
  pose proof (Hlen string r
                ((male_nicknames ++ male_nicknames ++ male_nicknames)
                 ++ numbered "개발자")) as Hm.
  destruct (shuffle_any string r _) as [em r1]. cbn [fst] in Hm.
  pose proof (Hlen string r1
                ((female_nicknames ++ female_nicknames ++ female_nicknames)
                 ++ numbered "개발녀")) as Hf.
  destruct (shuffle_any string r1 _) as [ef r2]. cbn [fst] in Hf.
  rewrite length_extended in Hm, Hf by reflexivity.
  destruct (Z.le_gt_cases 418 num_people) as [Hbig | Hedge].
  - assert (Hhalf : 209 <= num_people / 2)
      by (Z.div_mod_to_equations; lia).
    rewrite append_people_short by lia. reflexivity.
  - assert (num_people = 417) by lia. subst num_people.
    destruct (append_people_ok em male_label (Z.to_nat (417 / 2)) 0 []
                ltac:(change (Z.to_nat (417 / 2)) with 208%nat; lia))
      as (males & -> & _).
    rewrite append_people_short;
      [reflexivity | change (Z.to_nat (417 - 417 / 2)) with 209%nat; lia].
Qed.

(** X16: mock people in groups of an odd size never get a perfect round.
    With at least two groups the [num_people // 2] people with the male
    label cannot be spread [k // 2] to a group, so the search on a session
    of them uses its whole budget and returns a partition of positive
    cost. *)
Theorem mock_people_odd_groups (num_people k max_iterations : Z)
    (r r' : rng) (crowd : list Person) (s : @SocialGroupingProgram rng) :
  (forall A r l, (shuffle_any A r l).1 ≡ₚ l) ->
  0 <= num_people <= 416 ->
  k mod 2 = 1 -> num_people mod k = 0 -> 0 < k -> 2 * k <= num_people ->
  (generate_mock_people shuffle_any num_people r).1 = Ok crowd ->
  __init__ crowd k r' = Ok s ->
  1 <= max_iterations ->
  exists best s',
    generate_groups_genetic (shuffle_any Person) max_iterations s
    = (Ok (Some best), s')
    /\ sampled (shuffle_any Person) s max_iterations
       = candidates (shuffle_any Person) s max_iterations
    /\ 0 < cost_in s best.
Proof.
  intros Hperm Hn Hodd Hmod Hk Htwo Hmock Hinit HI.
  destruct (mock_people_facts num_people r Hperm Hn)
    as (crowd' & Hmock' & Hlen & Hmc & _).
  rewrite Hmock in Hmock'. injection Hmock' as <-.
  unfold __init__ in Hinit.
  destruct (Z.eqb_spec k 0) as [| _]; [lia |]. injection Hinit as <-.
  match goal with
  | |- context [generate_groups_genetic _ _ ?s0] =>
      destruct (unbalanced_search_run (shuffle_any Person) s0 max_iterations)
        as (best & Hrun & Hall & Hcost)
  end; cbn [people group_size num_groups]; try assumption.
  - intros r0 l. apply Hperm.
  - reflexivity.
  - now rewrite Hlen.
  - rewrite Hmc, Hlen. Z.div_mod_to_equations. nia.
  - eexists best, _. split; [exact Hrun |]. split; assumption.
Qed.

End MockFacts.

(** *** Examples on sample sessions *)

Lemma alternate_permutes (r : nat) (l : list Person) : (alternate r l).1 ≡ₚ l.
Proof.
  unfold alternate. cbn [fst].
  destruct (Nat.even r); [reflexivity | apply reverse_Permutation].
Qed.

Lemma construction_on_indivisible_witness :
  (2 <> 0 /\ Z.of_nat (length [ann; bob; cho; dee; eli]) mod 2 <> 0)
  /\ Analyzer.__init__ (Z.of_nat (length [ann; bob; cho; dee; eli])) 2
     = Raise ValueError
  /\ exists session : @SocialGroupingProgram nat,
       __init__ [ann; bob; cho; dee; eli] 2 0%nat = Ok session
       /\ people session = [ann; bob; cho; dee; eli]
       /\ group_size session = 2
       /\ num_groups session
          = Z.of_nat (length [ann; bob; cho; dee; eli]) / 2
       /\ previous_meetings session = ∅.
Proof.
  assert (H2 : 2 <> 0) by lia.
  assert (Hmod : Z.of_nat (length [ann; bob; cho; dee; eli]) mod 2 <> 0)
    by (vm_compute; discriminate).
  split; [split; assumption |].
  exact (proj2 (construction_on_indivisible [ann; bob; cho; dee; eli] 2 0%nat)
           H2 Hmod).
Defined.

(** C1 does not hold for the session: five people in groups of two are
    accepted, with two groups and one person left over. *)
Lemma session_accepts_indivisible :
  Z.of_nat (length [ann; bob; cho; dee; eli]) mod 2 <> 0
  /\ __init__ [ann; bob; cho; dee; eli] 2 0%nat
     = Ok (session_of [ann; bob; cho; dee; eli] 2)
  /\ num_groups (session_of [ann; bob; cho; dee; eli] 2) = 2.
Proof.
  split; [vm_compute; discriminate |]. split; reflexivity.
Qed.

Lemma search_returns_best_sampled_witness :
  1 <= 3
  /\ exists (best : list (list Person)) (s' : @SocialGroupingProgram nat)
       (k : nat),
       generate_groups_genetic alternate 3 (session_of [ann; bob; cho; dee] 2)
       = (Ok (Some best), s')
       /\ sampled alternate (session_of [ann; bob; cho; dee] 2) 3
          = take k (candidates alternate (session_of [ann; bob; cho; dee] 2) 3)
       /\ (1 <= k <= Z.to_nat 3)%nat
       /\ best ∈ sampled alternate (session_of [ann; bob; cho; dee] 2) 3
       /\ (forall c,
             c ∈ sampled alternate (session_of [ann; bob; cho; dee] 2) 3 ->
             cost_in (session_of [ann; bob; cho; dee] 2) best
             <= cost_in (session_of [ann; bob; cho; dee] 2) c)
       /\ (forall i c, (i + 1 < k)%nat ->
             candidates alternate (session_of [ann; bob; cho; dee] 2) 3 !! i
             = Some c ->
             cost_in (session_of [ann; bob; cho; dee] 2) c <> 0)
       /\ ((k < Z.to_nat 3)%nat ->
           cost_in (session_of [ann; bob; cho; dee] 2) best = 0)
       /\ s' = set_random_state
                 (random_after alternate
                    (people (session_of [ann; bob; cho; dee] 2)) k
                    (random_state (session_of [ann; bob; cho; dee] 2)))
                 (session_of [ann; bob; cho; dee] 2).
Proof.
  split; [lia |].
  apply (search_returns_best_sampled alternate 3
           (session_of [ann; bob; cho; dee] 2)).
  lia.
Defined.

(** The first candidate costs 0: the loop ends after one shuffle. *)
Example search_stops_on_zero :
  generate_groups_genetic alternate 3 (session_of [ann; bob; cho; dee] 2)
  = (Ok (Some [[ann; bob]; [cho; dee]]),
     set_random_state 1%nat (session_of [ann; bob; cho; dee] 2)).
Proof. vm_compute. reflexivity. Qed.

(** No candidate costs 0: the budget of five shuffles is used up and the
    first candidate, as good as any later one, is returned. *)
Example search_exhausts_budget :
  generate_groups_genetic alternate 5 (session_of [bob; cho; ann; dee] 2)
  = (Ok (Some [[bob; cho]; [ann; dee]]),
     set_random_state 5%nat (session_of [bob; cho; ann; dee] 2))
  /\ cost_in (session_of [bob; cho; ann; dee] 2) [[bob; cho]; [ann; dee]] = 8.
Proof. split; vm_compute; reflexivity. Qed.



Lemma gender_balance_from_male_count_witness :
  Z.of_nat (length [ann; bob]) = group_size (session_of [ann; bob; cho; dee] 2)
  /\ calculate_gender_balance_score [ann; bob]
       (session_of [ann; bob; cho; dee] 2)
     = (Ok (Z.abs (male_count [ann; bob]
                   - group_size (session_of [ann; bob; cho; dee] 2) / 2)
            + Z.abs (group_size (session_of [ann; bob; cho; dee] 2)
                     - male_count [ann; bob]
                     - (group_size (session_of [ann; bob; cho; dee] 2)
                        - group_size (session_of [ann; bob; cho; dee] 2) / 2))),
        session_of [ann; bob; cho; dee] 2)
  /\ other_count [ann; bob]
     = group_size (session_of [ann; bob; cho; dee] 2) - male_count [ann; bob].
Proof.
  split; [reflexivity |].
  apply (gender_balance_from_male_count [ann; bob]
           (session_of [ann; bob; cho; dee] 2)).
  reflexivity.
Defined.

(** C10 does not hold for a group whose length is not [k]: with [k = 2] the
    three male members [bob; cho; eli] score 3, where the formula with
    [k - m] gives 4; and groups of one, two and three members with the same
    [m = 1] score 1, 0 and 1, so the score is not a function of [m] alone. *)
Lemma gender_balance_uses_group_length :
  group_size (session_of [ann; bob; cho; dee; eli] 2) = 2
  /\ male_count [bob; cho; eli] = 3
  /\ calculate_gender_balance_score [bob; cho; eli]
       (session_of [ann; bob; cho; dee; eli] 2)
     = (Ok 3, session_of [ann; bob; cho; dee; eli] 2)
  /\ Z.abs (male_count [bob; cho; eli] - 2 / 2)
     + Z.abs (2 - male_count [bob; cho; eli] - (2 - 2 / 2)) = 4
  /\ calculate_gender_balance_score [bob; cho; eli]
       (session_of [ann; bob; cho; dee; eli] 2)
     <> (Ok (Z.abs (male_count [bob; cho; eli]
                    - group_size (session_of [ann; bob; cho; dee; eli] 2) / 2)
             + Z.abs (group_size (session_of [ann; bob; cho; dee; eli] 2)
                      - male_count [bob; cho; eli]
                      - (group_size (session_of [ann; bob; cho; dee; eli] 2)
                         - group_size (session_of [ann; bob; cho; dee; eli] 2)
                           / 2))),
         session_of [ann; bob; cho; dee; eli] 2)
  /\ male_count [bob] = 1
  /\ male_count [bob; ann] = 1
  /\ male_count [bob; ann; dee] = 1
  /\ (calculate_gender_balance_score [bob]
        (session_of [ann; bob; cho; dee; eli] 2)).1 = Ok 1
  /\ (calculate_gender_balance_score [bob; ann]
        (session_of [ann; bob; cho; dee; eli] 2)).1 = Ok 0
  /\ (calculate_gender_balance_score [bob; ann; dee]
        (session_of [ann; bob; cho; dee; eli] 2)).1 = Ok 1.
Proof.
  split; [reflexivity |]. split; [reflexivity |]. split; [reflexivity |].
  split; [reflexivity |]. split; [| repeat split; reflexivity].
  intros Heq. apply (f_equal fst) in Heq. vm_compute in Heq. discriminate Heq.
Qed.

(** A gender that is neither label is counted with the second category:
    two such members next to one male one score like two female ones. *)
Example unknown_label_counts_as_other :
  other_count [bob; {| nickname := "fay"; gender := "?" |};
               {| nickname := "gus"; gender := "" |}] = 2
  /\ (calculate_gender_balance_score
        [bob; {| nickname := "fay"; gender := "?" |};
         {| nickname := "gus"; gender := "" |}]
        (session_of [ann; bob; cho] 3)).1
     = Ok 0.
Proof. split; vm_compute; reflexivity. Qed.

(** *** Examples for rounds, statistics and mock data *)

Lemma reversing_permutes (A : Type) (r : nat) (l : list A) :
  (reversing A r l).1 ≡ₚ l.
Proof. apply reverse_Permutation. Qed.

Lemma alternate_keeps_length (r : nat) (l : list Person) :
  length (alternate r l).1 = length l.
Proof. now rewrite (alternate_permutes r l). Qed.

Lemma rounds_keep_history_and_ledger_witness :
  __init__ [ann; bob; cho; dee] 2 0%nat = Ok (session_of [ann; bob; cho; dee] 2)
  /\ (run_rounds alternate 3 (session_of [ann; bob; cho; dee] 2)).1 = Ok tt
  /\ current_round (run_rounds alternate 3 (session_of [ann; bob; cho; dee] 2)).2
     = Z.of_nat 3
  /\ length (round_history
               (run_rounds alternate 3 (session_of [ann; bob; cho; dee] 2)).2)
     = 3%nat
  /\ previous_meetings
       (run_rounds alternate 3 (session_of [ann; bob; cho; dee] 2)).2
     = pair_keys
         (concat (round_history
                    (run_rounds alternate 3
                       (session_of [ann; bob; cho; dee] 2)).2))
  /\ people (run_rounds alternate 3 (session_of [ann; bob; cho; dee] 2)).2
     = [ann; bob; cho; dee]
  /\ group_size (run_rounds alternate 3 (session_of [ann; bob; cho; dee] 2)).2
     = 2.
Proof.
  split; [reflexivity |].
  apply (rounds_keep_history_and_ledger alternate [ann; bob; cho; dee] 2
           0%nat (session_of [ann; bob; cho; dee] 2) 3).
  reflexivity.
Defined.

Lemma export_lists_rounds_in_order_witness :
  exists data,
    save_history (run_rounds alternate 2 (session_of [ann; bob; cho; dee] 2)).2
    = (Ok data, (run_rounds alternate 2 (session_of [ann; bob; cho; dee] 2)).2)
    /\ hd_total_people data = Z.of_nat (length [ann; bob; cho; dee])
    /\ hd_group_size data = 2
    /\ length (hd_rounds data) = 2%nat
    /\ (forall i rd, hd_rounds data !! i = Some rd ->
          rd_round rd = Z.of_nat i + 1
          /\ rd_round rd
             <= current_round
                  (run_rounds alternate 2 (session_of [ann; bob; cho; dee] 2)).2
          /\ exists groups,
               round_history
                 (run_rounds alternate 2
                    (session_of [ann; bob; cho; dee] 2)).2 !! i
               = Some groups
               /\ rd_groups rd = map (map nickname) groups).
Proof.
  apply (export_lists_rounds_in_order alternate [ann; bob; cho; dee] 2
           0%nat (session_of [ann; bob; cho; dee] 2) 2).
  reflexivity.
Defined.

Lemma no_groups_commits_nothing_witness :
  num_groups (session_of [ann] 2) <= 0
  /\ exists s' : @SocialGroupingProgram nat,
       create_new_round alternate (session_of [ann] 2) = (Ok (Some []), s')
       /\ previous_meetings s' = previous_meetings (session_of [ann] 2)
       /\ round_history s' = round_history (session_of [ann] 2) ++ [[]]
       /\ current_round s' = current_round (session_of [ann] 2) + 1
       /\ random_state s'
          = (alternate (random_state (session_of [ann] 2))
               (people (session_of [ann] 2))).2.
Proof.
  assert (H : num_groups (session_of [ann] 2) <= 0)
    by (vm_compute; discriminate).
  split; [exact H |].
  exact (no_groups_commits_nothing alternate (session_of [ann] 2) H).
Defined.

Lemma unbalanced_population_exhausts_budget_witness :
  exists best,
    generate_groups_genetic alternate 4 (session_of [bob; cho; eli; ann] 2)
    = (Ok (Some best),
       set_random_state
         (random_after alternate (people (session_of [bob; cho; eli; ann] 2))
            (Z.to_nat 4)
            (random_state (session_of [bob; cho; eli; ann] 2)))
         (session_of [bob; cho; eli; ann] 2))
    /\ sampled alternate (session_of [bob; cho; eli; ann] 2) 4
       = candidates alternate (session_of [bob; cho; eli; ann] 2) 4
    /\ 0 < cost_in (session_of [bob; cho; eli; ann] 2) best.
Proof.
  apply (unbalanced_population_exhausts_budget alternate
           (session_of [bob; cho; eli; ann] 2) 4).
  - exact alternate_permutes.
  - reflexivity.
  - reflexivity.
  - reflexivity.
  - vm_compute. discriminate.
  - lia.
Defined.

Lemma statistics_outcome_witness :
  show_statistics (session_of [ann] 2)
  = (Raise ZeroDivisionError, session_of [ann] 2)
  /\ show_statistics (session_of [ann; bob; cho; dee] 2)
     = (Ok tt, session_of [ann; bob; cho; dee] 2)
  /\ show_statistics
       (set_current_round 1 (session_of [ann; bob; cho; dee] 1))
     = (Raise ZeroDivisionError,
        set_current_round 1 (session_of [ann; bob; cho; dee] 1)).
Proof.
  split; [| split].
  - apply (proj1 (statistics_outcome (session_of [ann] 2))).
    vm_compute. reflexivity.
  - apply (proj2 (statistics_outcome (session_of [ann; bob; cho; dee] 2)));
      try (vm_compute; reflexivity); vm_compute; discriminate.
  - apply (proj2 (statistics_outcome
                    (set_current_round 1 (session_of [ann; bob; cho; dee] 1))));
      try (vm_compute; reflexivity); vm_compute; discriminate.
Defined.

Lemma round_adds_at_most_pairs_per_round_witness :
  Z.of_nat
    (size (previous_meetings
             (create_new_round alternate
                (session_of [ann; bob; cho; dee; eli] 2)).2))
  <= Z.of_nat (size (previous_meetings
                       (session_of [ann; bob; cho; dee; eli] 2)))
     + num_groups (session_of [ann; bob; cho; dee; eli] 2)
       * (group_size (session_of [ann; bob; cho; dee; eli] 2)
          * (group_size (session_of [ann; bob; cho; dee; eli] 2) - 1) / 2).
Proof.
  apply (round_adds_at_most_pairs_per_round alternate
           (session_of [ann; bob; cho; dee; eli] 2)).
  - exact alternate_keeps_length.
  - reflexivity.
  - reflexivity.
Defined.

Lemma ledger_within_all_pairs_witness :
  Z.of_nat
    (size (previous_meetings
             (run_rounds alternate 5 (session_of [ann; bob; cho; dee] 2)).2))
  <= Z.of_nat (length [ann; bob; cho; dee])
     * (Z.of_nat (length [ann; bob; cho; dee]) - 1) / 2.
Proof.
  apply (ledger_within_all_pairs alternate [ann; bob; cho; dee] 2 0%nat
           (session_of [ann; bob; cho; dee] 2) 5).
  - exact alternate_permutes.
  - reflexivity.
Defined.

Lemma reported_new_meetings_are_added_witness :
  exists previous new,
    print_groups_totals [[ann; bob]; [cho; dee]]
      (session_of [ann; bob; cho; dee] 2)
    = (Ok (previous, new), session_of [ann; bob; cho; dee] 2)
    /\ 0 <= previous /\ 0 <= new
    /\ Z.of_nat
         (size (previous_meetings
                  (add_meetings [[ann; bob]; [cho; dee]]
                     (session_of [ann; bob; cho; dee] 2)).2))
       = Z.of_nat (size (previous_meetings
                           (session_of [ann; bob; cho; dee] 2)))
         + new.
Proof.
  apply (reported_new_meetings_are_added [[ann; bob]; [cho; dee]]
           (session_of [ann; bob; cho; dee] 2)).
  - apply (bool_decide_unpack _). vm_compute. exact I.
  - repeat constructor.
Defined.

(** Two people under one nickname, as the pools of [generate_mock_people]
    can produce them: the report counts three new meetings where the
    ledger gains two keys. *)
Example reported_new_meetings_with_namesakes :
  print_groups_totals
    [[ann; bob; {| nickname := "bob"; gender := male_label |}]]
    (session_of [ann; bob; {| nickname := "bob"; gender := male_label |}] 3)
  = (Ok (0, 3),
     session_of [ann; bob; {| nickname := "bob"; gender := male_label |}] 3)
  /\ size (previous_meetings
             (add_meetings
                [[ann; bob; {| nickname := "bob"; gender := male_label |}]]
                (session_of
                   [ann; bob; {| nickname := "bob"; gender := male_label |}]
                   3)).2)
     = 2%nat.
Proof. split; vm_compute; reflexivity. Qed.

Lemma mock_people_split_witness :
  exists people,
    (generate_mock_people reversing 72 0%nat).1 = Ok people
    /\ Z.of_nat (length people) = 72
    /\ male_count people = 72 / 2
    /\ other_count people = 72 - 72 / 2
    /\ Forall (fun p => gender p = male_label \/ gender p = female_label)
         people.
Proof.
  apply (mock_people_split reversing 72 0%nat).
  - exact reversing_permutes.
  - lia.
Defined.

Lemma mock_people_pool_exhausted_witness :
  (generate_mock_people reversing 500 0%nat).1 = Raise IndexError.
Proof.
  apply (mock_people_pool_exhausted reversing 500 0%nat).
  - intros A r l. unfold reversing. cbn [fst]. apply length_reverse.
  - lia.
Defined.

Lemma handle_command_effect_witness :
  exists again,
    (handle_command alternate "go" (session_of [ann] 2)).1 = Ok again
    /\ (again = false <-> "go" = "quit" \/ "go" = "q")
    /\ (handle_command alternate "go" (session_of [ann] 2)).2
       = (create_new_round alternate (session_of [ann] 2)).2.
Proof.
  destruct (handle_command_effect alternate "go" (session_of [ann] 2))
    as (again & Hrun & Hquit & Hgo & _).
  exists again. split; [exact Hrun |]. split; [exact Hquit |].
  apply Hgo. now left.
Defined.

Lemma run_commands_counts_rounds_witness :
  (run_commands alternate ["go"; "stat"; "g"; "help"]
     (session_of [ann; bob; cho; dee] 2)).1 = Ok false
  /\ current_round
       (run_commands alternate ["go"; "stat"; "g"; "help"]
          (session_of [ann; bob; cho; dee] 2)).2
     = current_round (session_of [ann; bob; cho; dee] 2)
       + Z.of_nat
           (length (filter (fun c => c ∈ ["go"; "g"])
                      ["go"; "stat"; "g"; "help"]))
  /\ previous_meetings (session_of [ann; bob; cho; dee] 2)
     ⊆ previous_meetings
         (run_commands alternate ["go"; "stat"; "g"; "help"]
            (session_of [ann; bob; cho; dee] 2)).2
  /\ run_commands alternate
       (["go"; "stat"; "g"; "help"] ++ "quit" :: ["go"])
       (session_of [ann; bob; cho; dee] 2)
     = (Ok true,
        (run_commands alternate ["go"; "stat"; "g"; "help"]
           (session_of [ann; bob; cho; dee] 2)).2).
Proof.
  apply (run_commands_counts_rounds alternate ["go"; "stat"; "g"; "help"]
           ["go"] (session_of [ann; bob; cho; dee] 2)).
  repeat (constructor; [split; discriminate |]). constructor.
Defined.

Lemma mock_people_odd_groups_witness :
  exists best s',
    generate_groups_genetic (reversing Person) 2
      (session_of
         [{| nickname := "개발녀97"; gender := female_label |};
          {| nickname := "개발녀98"; gender := female_label |};
          {| nickname := "개발녀99"; gender := female_label |};
          {| nickname := "개발자97"; gender := male_label |};
          {| nickname := "개발자98"; gender := male_label |};
          {| nickname := "개발자99"; gender := male_label |}] 3)
    = (Ok (Some best), s')
    /\ sampled (reversing Person)
         (session_of
            [{| nickname := "개발녀97"; gender := female_label |};
             {| nickname := "개발녀98"; gender := female_label |};
             {| nickname := "개발녀99"; gender := female_label |};
             {| nickname := "개발자97"; gender := male_label |};
             {| nickname := "개발자98"; gender := male_label |};
             {| nickname := "개발자99"; gender := male_label |}] 3) 2
       = candidates (reversing Person)
           (session_of
              [{| nickname := "개발녀97"; gender := female_label |};
               {| nickname := "개발녀98"; gender := female_label |};
               {| nickname := "개발녀99"; gender := female_label |};
               {| nickname := "개발자97"; gender := male_label |};
               {| nickname := "개발자98"; gender := male_label |};
               {| nickname := "개발자99"; gender := male_label |}] 3) 2
    /\ 0 < cost_in
             (session_of
                [{| nickname := "개발녀97"; gender := female_label |};
                 {| nickname := "개발녀98"; gender := female_label |};
                 {| nickname := "개발녀99"; gender := female_label |};
                 {| nickname := "개발자97"; gender := male_label |};
                 {| nickname := "개발자98"; gender := male_label |};
                 {| nickname := "개발자99"; gender := male_label |}] 3)
             best.
Proof.
  apply (mock_people_odd_groups reversing 6 3 2 0%nat 0%nat
           [{| nickname := "개발녀97"; gender := female_label |};
            {| nickname := "개발녀98"; gender := female_label |};
            {| nickname := "개발녀99"; gender := female_label |};
            {| nickname := "개발자97"; gender := male_label |};
            {| nickname := "개발자98"; gender := male_label |};
            {| nickname := "개발자99"; gender := male_label |}]).
  - exact reversing_permutes.
  - lia.
  - reflexivity.
  - reflexivity.
  - lia.
  - lia.
  - vm_compute. reflexivity.
  - reflexivity.
  - lia.
Defined.

Lemma first_round_cost_is_imbalance_witness :
  total_score [[bob; cho]; [ann; dee]] (session_of [bob; cho; ann; dee] 2)
  = (Ok (2 * zsum (map (imbalance
                          (group_size (session_of [bob; cho; ann; dee] 2)))
                     [[bob; cho]; [ann; dee]])),
     session_of [bob; cho; ann; dee] 2)
  /\ Forall (fun g =>
               calculate_group_score g (session_of [bob; cho; ann; dee] 2)
               = (Ok 0, session_of [bob; cho; ann; dee] 2))
       [[bob; cho]; [ann; dee]].
Proof.
  apply (first_round_cost_is_imbalance [[bob; cho]; [ann; dee]]
           (session_of [bob; cho; ann; dee] 2)).
  reflexivity.
Defined.

Lemma history_rounds_are_partitions_witness :
  Forall (valid_partition [ann; bob; cho; dee] 2)
    (round_history
       (run_rounds alternate 3 (session_of [ann; bob; cho; dee] 2)).2).
Proof.
  apply (history_rounds_are_partitions alternate [ann; bob; cho; dee] 2
           0%nat (session_of [ann; bob; cho; dee] 2) 3).
  - exact alternate_permutes.
  - lia.
  - reflexivity.
  - reflexivity.
Defined.

Lemma larger_budget_never_worse_witness :
  exists found_first found_later,
    (generate_groups_genetic alternate 1
       (session_of [bob; cho; ann; dee] 2)).1 = Ok (Some found_first)
    /\ (generate_groups_genetic alternate 7
          (session_of [bob; cho; ann; dee] 2)).1 = Ok (Some found_later)
    /\ cost_in (session_of [bob; cho; ann; dee] 2) found_later
       <= cost_in (session_of [bob; cho; ann; dee] 2) found_first.
Proof.
  apply (larger_budget_never_worse alternate 1 7
           (session_of [bob; cho; ann; dee] 2)).
  lia.
Defined.

End ProgramSpec.
